(** * vid-api-worker: a shallow embedding of the video proxy worker

    The worker is a small JavaScript program: a router ([src/index.js]), an
    HTTP client ([src/utils/httpClient.js]), URL and CORS helpers, and two
    handlers, one of which rewrites M3U8 playlists line by line.

    JavaScript strings are modelled as [string]; a character stands for one
    code unit in the range U+0000..U+00FF.  The functions of the JavaScript
    run time that the program calls ([split], [trim], [encodeURIComponent],
    [JSON.stringify], ...) are written out for that range.  The [URL]
    constructor, [fetch] and the clock belong to the host: the program is
    parametrised by them through the class [Host], and a reference instance
    for http and https URLs is given to evaluate the program on concrete
    inputs. *)

From Stdlib Require Import List String Ascii ZArith NArith Bool Lia.
From Stdlib Require Import Numbers.DecimalString.
Import ListNotations.

Open Scope list_scope.
Open Scope string_scope.

(** ** The JavaScript string functions the program uses *)

Module JS.

Definition code (c : ascii) : N := N_of_ascii c.

Definition LF : ascii := ascii_of_N 10.
Definition CR : ascii := ascii_of_N 13.

(** [WhiteSpace] and [LineTerminator] of ECMAScript, below U+0100. *)
Definition isWhiteSpace (c : ascii) : bool :=
  let n := code c in
  ((9 <=? n) && (n <=? 13) || (n =? 32) || (n =? 160))%N.

Fixpoint trimStart (s : string) : string :=
  match s with
  | "" => ""
  | String c s' => if isWhiteSpace c then trimStart s' else s
  end.

Fixpoint trimEnd (s : string) : string :=
  match s with
  | "" => ""
  | String c s' =>
      match trimEnd s' with
      | "" => if isWhiteSpace c then "" else String c ""
      | t => String c t
      end
  end.

(** [String.prototype.trim] *)
Definition trim (s : string) : string := trimEnd (trimStart s).

(** [s.startsWith(p)] *)
Definition startsWith (s p : string) : bool := String.prefix p s.

(** [s.endsWith(p)] *)
Definition endsWith (s p : string) : bool :=
  let n := String.length s in
  let m := String.length p in
  (m <=? n)%nat && String.eqb (String.substring (n - m) m s) p.

(** [s.includes(p)] *)
Fixpoint includes (s p : string) : bool :=
  String.prefix p s ||
  match s with
  | "" => false
  | String _ s' => includes s' p
  end.

(** [xs.join(sep)] *)
Fixpoint join (sep : string) (xs : list string) : string :=
  match xs with
  | [] => ""
  | [x] => x
  | x :: tl => x ++ sep ++ join sep tl
  end.

(** [text.split(/\r?\n/)]: the separator is a line feed, with the carriage
    return before it when there is one; a carriage return alone separates
    nothing.  The result is never empty. *)
Fixpoint splitLines (s : string) : list string :=
  match s with
  | "" => [""]
  | String c s' =>
      let keep :=
        match splitLines s' with
        | [] => [String c ""]
        | l :: ls => String c l :: ls
        end in
      if (code c =? 10)%N then "" :: splitLines s'
      else if (code c =? 13)%N then
        match s' with
        | String d s'' => if (code d =? 10)%N then "" :: splitLines s'' else keep
        | "" => keep
        end
      else keep
  end.

Definition hexDigit (n : N) : ascii :=
  if (n <? 10)%N then ascii_of_N (48 + n) else ascii_of_N (55 + n).

(** One byte as [%XX], upper-case digits. *)
Definition pct (n : N) : string :=
  String "%" (String (hexDigit (n / 16)) (String (hexDigit (n mod 16)) "")).

(** The UTF-8 bytes of a code unit below U+0100, each as [%XX]. *)
Definition pctUtf8 (c : ascii) : string :=
  let n := code c in
  if (n <? 128)%N then pct n
  else pct (192 + n / 64) ++ pct (128 + n mod 64).

Definition isAlpha (c : ascii) : bool :=
  let n := code c in
  ((65 <=? n) && (n <=? 90) || (97 <=? n) && (n <=? 122))%N.

Definition isDigit (c : ascii) : bool :=
  let n := code c in ((48 <=? n) && (n <=? 57))%N.

Fixpoint mem (c : ascii) (s : string) : bool :=
  match s with
  | "" => false
  | String d s' => Ascii.eqb c d || mem c s'
  end.

(** The characters [encodeURIComponent] leaves alone. *)
Definition uriUnreserved (c : ascii) : bool :=
  isAlpha c || isDigit c || mem c "-_.!~*'()".

Fixpoint encodeURIComponent (s : string) : string :=
  match s with
  | "" => ""
  | String c s' =>
      (if uriUnreserved c then String c "" else pctUtf8 c)
      ++ encodeURIComponent s'
  end.

(** ASCII lower case, as header names and host names are compared. *)
Definition lowerChar (c : ascii) : ascii :=
  let n := code c in
  if ((65 <=? n) && (n <=? 90))%N then ascii_of_N (n + 32) else c.

Fixpoint toLower (s : string) : string :=
  match s with
  | "" => ""
  | String c s' => String (lowerChar c) (toLower s')
  end.

(** A number in a template literal; the numbers here are integers. *)
Definition showZ (z : Z) : string := NilZero.string_of_int (Z.to_int z).

End JS.

(** ** Values of the run time: errors, objects, JSON, responses *)

(** A possibly [undefined] string; [String(undefined)] is the text
    [undefined], which is what the [URL] constructor sees. *)
Definition toStr (v : option string) : string :=
  match v with
  | Some s => s
  | None => "undefined"
  end.

(** [!value] for a string that may be [null] or [undefined]. *)
Definition falsy (v : option string) : bool :=
  match v with
  | Some s => String.eqb s ""
  | None => true
  end.

Record Error := mkError { name : string; message : string }.

(** [`${error}`]: [Error.prototype.toString]. *)
Definition Error_toString (e : Error) : string :=
  if String.eqb (name e) "" then message e
  else if String.eqb (message e) "" then name e
  else name e ++ ": " ++ message e.

(** A plain object with string values, its keys in insertion order. *)
Definition Obj := list (string * string).

Fixpoint Obj_get (o : Obj) (k : string) : option string :=
  match o with
  | [] => None
  | (k', v) :: tl => if String.eqb k' k then Some v else Obj_get tl k
  end.

Fixpoint Obj_set (o : Obj) (k v : string) : Obj :=
  match o with
  | [] => [(k, v)]
  | (k', v') :: tl =>
      if String.eqb k' k then (k, v) :: tl else (k', v') :: Obj_set tl k v
  end.

(** [o[k] = v], for a string [v], on an object made by [{}].  The name
    [__proto__] is the accessor the object inherits from
    [Object.prototype]; its setter passes over a value that is neither an
    object nor [null], so the assignment stores no property.  Every other
    name becomes, or stays, a property of the object itself. *)
Definition Obj_assign (o : Obj) (k v : string) : Obj :=
  if String.eqb k "__proto__" then o else Obj_set o k v.

(** [{...a, ...b}] *)
Definition Obj_spread (a b : Obj) : Obj :=
  fold_left (fun o kv => Obj_set o (fst kv) (snd kv)) b a.

(** A [Headers] object: names are kept in lower case.  [Headers_set] is
    [headers.set(name, value)] for a name and a value the object takes as
    they stand, which [isHeaderName] and [isHeaderValue] below decide; for
    any other pair [set] removes the blanks around the value or throws a
    [TypeError], as [Headers_set_checked] below has it.  The properties of
    requests built from headers a caller supplies are stated for pairs
    taken as they stand, where the two agree. *)
Definition Headers := list (string * string).

Definition Headers_get (h : Headers) (k : string) : option string :=
  Obj_get h (JS.toLower k).

Definition Headers_set (h : Headers) (k v : string) : Headers :=
  Obj_set h (JS.toLower k) v.

Definition Headers_of (o : Obj) : Headers :=
  fold_left (fun h kv => Headers_set h (fst kv) (snd kv)) o [].

(** [headers.set(name, value)] in full (Fetch Standard, header names and
    values).  A name is a token: one or more letters, digits or marks of
    the list below.  [set] first removes tabs, spaces, line feeds and
    carriage returns from both ends of the value, then throws a
    [TypeError] unless the name is a token and the shortened value holds
    no NUL, line feed or carriage return, and then stores the shortened
    value under the name.  The message of the error is the run time's
    own. *)
Definition isTokenChar (c : ascii) : bool :=
  JS.isAlpha c || JS.isDigit c || JS.mem c "!#$%&'*+-.^_`|~".

Definition isHeaderName (k : string) : bool :=
  negb (String.eqb k "") && forallb isTokenChar (list_ascii_of_string k).

Definition isHTTPWhitespace (c : ascii) : bool :=
  let n := JS.code c in ((n =? 9) || (n =? 10) || (n =? 13) || (n =? 32))%N.

Definition isLegalByte (c : ascii) : bool :=
  let n := JS.code c in (negb (n =? 0) && negb (n =? 10) && negb (n =? 13))%N.

Fixpoint stripBlanksStart (s : string) : string :=
  match s with
  | "" => ""
  | String c s' => if isHTTPWhitespace c then stripBlanksStart s' else s
  end.

Fixpoint stripBlanksEnd (s : string) : string :=
  match s with
  | "" => ""
  | String c s' =>
      match stripBlanksEnd s' with
      | "" => if isHTTPWhitespace c then "" else String c ""
      | rest => String c rest
      end
  end.

Definition normalizeValue (v : string) : string := stripBlanksEnd (stripBlanksStart v).

Definition Headers_set_checked (h : Headers) (k v : string) : Error + Headers :=
  let value := normalizeValue v in
  if isHeaderName k && forallb isLegalByte (list_ascii_of_string value)
  then inr (Headers_set h k value)
  else inl (mkError "TypeError" "Invalid header").

(** [Object.entries(o).forEach(([key, value]) => headers.set(key, value))]:
    the first [set] that throws ends the run. *)
Fixpoint Headers_setAll (o : Obj) (h : Headers) : Error + Headers :=
  match o with
  | [] => inr h
  | (k, v) :: tl =>
      match Headers_set_checked h k v with
      | inr h' => Headers_setAll tl h'
      | inl e => inl e
      end
  end.

(** A value that [set] takes as it stands: it has no blank to remove and
    holds no NUL, line feed or carriage return.  For a token name and such
    a value [set] is [Headers_set]. *)
Definition isHeaderValue (v : string) : bool :=
  String.eqb (normalizeValue v) v && forallb isLegalByte (list_ascii_of_string v).

(** An object all of whose entries [headers.set] takes as they stand. *)
Definition takenAsGiven (o : Obj) : bool :=
  forallb (fun kv => isHeaderName (fst kv) && isHeaderValue (snd kv)) o.

#[warnings="-register-all"]
Inductive JSON :=
| JString (s : string)
| JNumber (z : Z)
| JArray (xs : list JSON)
| JObject (fields : list (string * JSON)).

Module Json.

Definition lowerHex (n : N) : ascii :=
  if (n <? 10)%N then ascii_of_N (48 + n) else ascii_of_N (87 + n).

Definition escapeChar (c : ascii) : string :=
  let n := JS.code c in
  if (n =? 34)%N then "\" ++ String c ""
  else if (n =? 92)%N then "\\"
  else if (n =? 8)%N then "\b"
  else if (n =? 9)%N then "\t"
  else if (n =? 10)%N then "\n"
  else if (n =? 12)%N then "\f"
  else if (n =? 13)%N then "\r"
  else if (n <? 32)%N then
    "\u00" ++ String (lowerHex (n / 16)) (String (lowerHex (n mod 16)) "")
  else String c "".

Fixpoint escape (s : string) : string :=
  match s with
  | "" => ""
  | String c s' => escapeChar c ++ escape s'
  end.

Definition quote (s : string) : string :=
  String (ascii_of_N 34) (escape s ++ String (ascii_of_N 34) "").

(** [JSON.stringify] without indentation. *)
Fixpoint stringify (j : JSON) : string :=
  match j with
  | JString s => quote s
  | JNumber z => JS.showZ z
  | JArray xs =>
      "[" ++ JS.join "," (map stringify xs) ++ "]"
  | JObject fields =>
      "{" ++ JS.join "," (map (fun kv => quote (fst kv) ++ ":" ++ stringify (snd kv)) fields)
      ++ "}"
  end.

End Json.

(** A response, received from upstream or built by the worker.  The body
    is [None] for [null]. *)
Record Response := mkResponse {
  status : Z;
  statusText : string;
  headers : Headers;
  body : option string
}.

(** [new Response(body, { status, headers })] *)
Definition new_Response (b : option string) (st : option Z) (h : Obj) : Response :=
  mkResponse (match st with Some z => z | None => 200%Z end) "" (Headers_of h) b.

(** The parts of a [URL] object the program reads. *)
Record URL := mkURL {
  href : string;
  origin : string;
  hostname : string;
  pathname : string;
  searchParams : list (string * string)
}.

(** [searchParams.get(name)]: the first value under that name. *)
Definition searchParams_get (sp : list (string * string)) (k : string) : option string :=
  Obj_get sp k.

(** The parts of a [Request] the program reads: [request.method] and
    [request.url]. *)
Record Request := mkRequest { req_method : string; req_url : string }.

(** ** The host *)

(** What the program takes from the run time it is deployed on: the [URL]
    constructor (with an optional base; it throws a [TypeError] on a string
    it cannot parse), the outcome of an outbound [fetch] under a deadline in
    milliseconds (the promise resolves with a response, or rejects: with an
    [AbortError] when the deadline passes first, with a network error
    otherwise), and the clock read by [new Date().toISOString()]. *)
Class Host := {
  new_URL : string -> option string -> Error + URL;
  fetch : string -> Headers -> Z -> Error + Response;
  Date_toISOString : string
}.

(** ** Effects: console output, outbound requests, exceptions *)

Inductive Event :=
| ConsoleLog (line : string)
| ConsoleError (line : string)
| Fetched (target : string) (sent : Headers).

(** A computation leaves a trace of events and returns or throws. *)
Definition M (A : Type) : Type := list Event * (Error + A).

Definition ret {A} (a : A) : M A := ([], inr a).

Definition throw {A} (e : Error) : M A := ([], inl e).

Definition bind {A B} (m : M A) (k : A -> M B) : M B :=
  match m with
  | (t, inl e) => (t, inl e)
  | (t, inr a) => let (t', r) := k a in ((t ++ t')%list, r)
  end.

(** [try { m } catch (e) { h e }] *)
Definition try_catch {A} (m : M A) (h : Error -> M A) : M A :=
  match m with
  | (t, inl e) => let (t', r) := h e in ((t ++ t')%list, r)
  | (t, inr a) => (t, inr a)
  end.

Definition emit (ev : Event) : M unit := ([ev], inr tt).

Definition lift {A} (r : Error + A) : M A := ([], r).

Notation "x <- m ;; k" := (bind m (fun x => k))
  (at level 61, m at next level, right associativity).
Notation "m ;;; k" := (bind m (fun _ => k))
  (at level 61, right associativity).

Definition trace {A} (m : M A) : list Event := fst m.
Definition outcome {A} (m : M A) : Error + A := snd m.

Definition is_fetch (ev : Event) : bool :=
  match ev with
  | Fetched _ _ => true
  | _ => false
  end.

(** The console lines of the source open with a pictograph; it is left out
    of the logged text, the rest of each line is kept. *)

(** ** src/utils/httpClient.js *)

Module HttpClient.
Section WithHost.
Context {host : Host}.

Definition DEFAULT_HEADERS : Obj :=
  [ ("User-Agent", "Mozilla/5.0 (Windows NT 10.0; Win64; x64) AppleWebKit/537.36 (KHTML, like Gecko) Chrome/120.0.0.0 Safari/537.36");
    ("Accept", "*/*");
    ("Accept-Language", "en-US,en;q=0.9");
    ("Accept-Encoding", "gzip, deflate, br");
    ("Connection", "keep-alive");
    ("Cache-Control", "no-cache") ].

(** The [Headers] object built for the request: the defaults first, then
    the caller's headers, which replace a default of the same name.  It is
    what the [set] calls of the source build when each of them takes its
    name and value as they stand: [Headers_setAll] over the same entries
    then returns it (see [requestHeaders_built]). *)
Definition requestHeaders (options_headers : option Obj) : Headers :=
  let hdrs := fold_left (fun h kv => Headers_set h (fst kv) (snd kv)) DEFAULT_HEADERS [] in
  match options_headers with
  | Some o => fold_left (fun h kv => Headers_set h (fst kv) (snd kv)) o hdrs
  | None => hdrs
  end.

(** The [timeout] parameter with its default. *)
Definition timeoutOr (timeout : option Z) : Z :=
  match timeout with
  | Some t => t
  | None => 15000%Z
  end.

(** [options] carries only [headers] at every call site; [timeout] is
    [None] when the caller leaves it to the default. *)
Definition fetchWithConfig (target : string) (options_headers : option Obj)
    (timeout : option Z) : M Response :=
  try_catch
    (let hdrs := requestHeaders options_headers in
     emit (Fetched target hdrs) ;;;
     response <- lift (fetch target hdrs (timeoutOr timeout)) ;;
     if (status response <? 200)%Z || (status response >=? 400)%Z
     then throw (mkError "Error"
                   ("HTTP " ++ JS.showZ (status response) ++ ": " ++ statusText response))
     else ret response)
    (fun error => throw error).

(** [targetUrl] is [None] when the caller passes one argument only. *)
Definition createProxyHeaders (refUrl : string) (targetUrl : option string) : M Obj :=
  refUrlObj <- lift (new_URL refUrl None) ;;
  targetUrlObj <- lift (new_URL (toStr targetUrl) None) ;;
  ret [ ("Referer", refUrl);
        ("Origin", origin refUrlObj);
        ("Host", hostname targetUrlObj);
        ("Sec-Fetch-Dest", "empty");
        ("Sec-Fetch-Mode", "cors");
        ("Sec-Fetch-Site", "cross-site") ].

Definition fetchWithProxy (target refUrl : string) (options_headers : option Obj)
    (timeout : option Z) : M Response :=
  proxyHeaders <- createProxyHeaders refUrl (Some target) ;;
  fetchWithConfig target
    (Some (Obj_spread proxyHeaders
             (match options_headers with Some o => o | None => [] end)))
    (Some (timeoutOr timeout)).

(** The status the error is answered with: the [if ... else if] chain
    that sets [statusCode] in [createHttpErrorResponse]. *)
Definition statusCodeOf (error : Error) : Z :=
  if String.eqb (name error) "AbortError" then 408
  else if JS.includes (message error) "HTTP 403" then 403
  else if JS.includes (message error) "HTTP 404" then 404
  else if JS.includes (message error) "HTTP 429" then 429
  else if JS.includes (message error) "HTTP 502" || JS.includes (message error) "HTTP 503"
  then 502
  else 500.

Definition createHttpErrorResponse (error : Error) (operation : string) : M Response :=
  let statusCode := statusCodeOf error in
  emit (ConsoleLog ("Error in " ++ operation ++ ": " ++ Error_toString error)) ;;;
  ret (new_Response
         (Some (Json.stringify
                  (JObject [ ("error", JString ("Failed to " ++ operation));
                             ("message", JString (message error));
                             ("status", JNumber statusCode);
                             ("timestamp", JString Date_toISOString) ])))
         (Some statusCode)
         [ ("Content-Type", "application/json");
           ("Access-Control-Allow-Origin", "*") ]).

(** The builder over the [Headers] API: six [headers.set] calls. *)
Definition createProxyHeadersAPI (refUrl targetUrl : string) : M Headers :=
  refUrlObj <- lift (new_URL refUrl None) ;;
  targetUrlObj <- lift (new_URL targetUrl None) ;;
  let hdrs : Headers := [] in
  hdrs <- lift (Headers_set_checked hdrs "Referer" refUrl) ;;
  hdrs <- lift (Headers_set_checked hdrs "Origin" (origin refUrlObj)) ;;
  hdrs <- lift (Headers_set_checked hdrs "Host" (hostname targetUrlObj)) ;;
  hdrs <- lift (Headers_set_checked hdrs "Sec-Fetch-Dest" "empty") ;;
  hdrs <- lift (Headers_set_checked hdrs "Sec-Fetch-Mode" "cors") ;;
  hdrs <- lift (Headers_set_checked hdrs "Sec-Fetch-Site" "cross-site") ;;
  ret hdrs.

(** [try { new URL(url); return true } catch { return false }] *)
Definition isValidUrl (target : string) : bool :=
  match new_URL target None with
  | inr _ => true
  | inl _ => false
  end.

(** The host name, or [null] (here [None]) when the string is no URL. *)
Definition extractDomain (target : string) : option string :=
  match new_URL target None with
  | inr u => Some (hostname u)
  | inl _ => None
  end.

End WithHost.
End HttpClient.

(** An earlier copy of [httpClient.js] is kept beside the playlist handler.
    Its [fetchWithConfig] has the same status test; its header builder and
    its error response differ, and are embedded here for comparison. *)

Module HttpClientEarlier.
Section WithHost.
Context {host : Host}.

Definition createProxyHeaders (refUrl : string) : M Obj :=
  refUrlObj <- lift (new_URL refUrl None) ;;
  ret [ ("Referer", refUrl);
        ("Origin", refUrl);
        ("Authority", hostname refUrlObj) ].

Definition createHttpErrorResponse (error : Error) (operation : string) : M Response :=
  let statusCode := if String.eqb (name error) "AbortError" then 408%Z else 500%Z in
  emit (ConsoleLog ("Error in " ++ operation ++ ": " ++ Error_toString error)) ;;;
  ret (new_Response
         (Some (Json.stringify
                  (JObject [ ("error", JString ("Failed to " ++ operation));
                             ("message", JString (message error));
                             ("status", JNumber statusCode) ])))
         (Some statusCode)
         [ ("Content-Type", "application/json") ]).

End WithHost.
End HttpClientEarlier.

(** ** src/utils/urlUtils.js *)

Module UrlUtils.
Section WithHost.
Context {host : Host}.

Definition parseUrl (input : string) : M URL :=
  try_catch (lift (new_URL input None))
    (fun error =>
       emit (ConsoleError ("URL Parse Error: " ++ input ++ " - " ++ message error)) ;;;
       throw (mkError "Error" ("Invalid URL: " ++ input))).

End WithHost.

Record Validation := mkValidation {
  isValid : bool;
  params : Obj;
  missing : list string
}.

(** One turn of [for (const param of requiredParams)]: [missing.push(param)]
    or [params[param] = value]. *)
Definition validateStep (sp : list (string * string)) (st : Obj * list string)
    (param : string) : Obj * list string :=
  let value := searchParams_get sp param in
  if falsy value then (fst st, (snd st ++ [param])%list)
  else (Obj_assign (fst st) param (toStr value), snd st).

Definition validateQueryParams (sp : list (string * string))
    (requiredParams : list string) : Validation :=
  let st := fold_left (validateStep sp) requiredParams ([], []) in
  mkValidation (Nat.eqb (List.length (snd st)) 0) (fst st) (snd st).

Definition createParamErrorResponse (missingParams : list string) : Response :=
  new_Response
    (Some (Json.stringify
             (JObject [ ("error", JString ("Missing required query parameters: "
                                           ++ JS.join ", " missingParams));
                        ("required", JArray (map JString missingParams)) ])))
    (Some 400%Z)
    [ ("Content-Type", "application/json") ].

Definition createUrlErrorResponse (error : Error) : Response :=
  new_Response
    (Some (Json.stringify (JObject [ ("error", JString (message error)) ])))
    (Some 400%Z)
    [ ("Content-Type", "application/json") ].

End UrlUtils.

(** ** src/middleware/cors.js *)

Module Cors.

Definition CORS_HEADERS : Obj :=
  [ ("Access-Control-Allow-Origin", "*");
    ("Access-Control-Allow-Methods", "GET, OPTIONS");
    ("Access-Control-Allow-Headers", "Content-Type");
    ("Access-Control-Max-Age", "86400") ].

Definition handleOptions : Response :=
  new_Response None (Some 204%Z) CORS_HEADERS.

Definition addCorsHeaders (hdrs : Obj) : Obj := Obj_spread hdrs CORS_HEADERS.

(** [options] carries only [headers] at every call site. *)
Definition createCorsResponse (b : option string) (options_headers : Obj) : Response :=
  new_Response b None (addCorsHeaders options_headers).

End Cors.

(** ** src/handlers/m3u8Handler.js *)

Module M3u8Handler.
Import HttpClient UrlUtils Cors.

Definition STREAM_INF : string := "#EXT-X-STREAM-INF".

Definition NL : string := String JS.LF "".

Definition streamRef (abs refUrl : string) : string :=
  "/player/stream?url=" ++ JS.encodeURIComponent abs
  ++ "&ref=" ++ JS.encodeURIComponent refUrl.

Definition segmentRef (abs refUrl : string) : string :=
  "/segment?url=" ++ JS.encodeURIComponent abs
  ++ "&ref=" ++ JS.encodeURIComponent refUrl.

Definition MISSING_URI : Event :=
  ConsoleError "[proxyM3U8][Parse Error] Missing URI after #EXT-X-STREAM-INF".

Section WithHost.
Context {host : Host}.

(** [new URL(ref, base).href] *)
Definition resolve (ref base : string) : M string :=
  u <- lift (new_URL ref (Some base)) ;; ret (href u).

(** The body of the [for] loop at cursor [i], with [i < lines.length]:
    the cursor and the output as the body leaves them, before the loop's
    own [i++].  [lines[++i] || ''] is the line at [S i], or the empty
    string past the end of the playlist. *)
Definition loopBody (lines : list string) (baseForRelative refUrl : string)
    (i : nat) (out : list string) : M (nat * list string) :=
  let line := JS.trim (nth i lines "") in
  if JS.startsWith line STREAM_INF then
    let out := (out ++ [line])%list in
    let i := S i in
    let next := JS.trim (nth i lines "") in
    if String.eqb next "" then
      emit MISSING_URI ;;; ret (i, out)
    else
      abs <- resolve next baseForRelative ;;
      ret (i, (out ++ [streamRef abs refUrl])%list)
  else if negb (String.eqb line "") && negb (JS.startsWith line "#") then
    abs <- resolve line baseForRelative ;;
    ret (i, (out ++ [segmentRef abs refUrl])%list)
  else
    ret (i, (out ++ [line])%list).

(** [for (let i = ...; i < lines.length; i++) { ... }] from cursor [i];
    every turn moves the cursor forward, so [fuel] turns are enough when
    [length lines - i <= fuel] (see [loop_scan]). *)
Fixpoint loop (fuel : nat) (lines : list string) (baseForRelative refUrl : string)
    (i : nat) (out : list string) : M (list string) :=
  match fuel with
  | O => ret out
  | S fuel' =>
      if (i <? List.length lines)%nat then
        st <- loopBody lines baseForRelative refUrl i out ;;
        loop fuel' lines baseForRelative refUrl (S (fst st)) (snd st)
      else ret out
  end.

Definition processPlaylistContent (playlistText m3u8Url refUrl : string) : M string :=
  baseForRelative <- resolve "." m3u8Url ;;
  let lines := JS.splitLines playlistText in
  out <- loop (List.length lines) lines baseForRelative refUrl 0 [] ;;
  ret (JS.join NL out).

(** [await response.text()] *)
Definition text (response : Response) : string :=
  match body response with
  | Some s => s
  | None => ""
  end.

(** The handler imports the client from [../utils/httpClient.js] and calls
    [createProxyHeaders(refUrl)] with the referer only. *)
Definition proxyM3U8 (request : Request) (url : URL) : M Response :=
  try_catch
    (let validation := validateQueryParams (searchParams url) ["url"; "ref"] in
     if negb (isValid validation) then
       emit (ConsoleError ("[proxyM3U8][Request Error] Missing query params: "
                           ++ JS.join ", " (missing validation))) ;;;
       ret (createParamErrorResponse (missing validation))
     else
       let m3u8Param := Obj_get (params validation) "url" in
       let refParam := Obj_get (params validation) "ref" in
       parsed <-
         try_catch
           (m3u8Url <- parseUrl (toStr m3u8Param) ;;
            refUrl <- parseUrl (toStr refParam) ;;
            ret (inr (href m3u8Url, href refUrl)))
           (fun error =>
              emit (ConsoleError ("[proxyM3U8][URL Parse Error] " ++ message error)) ;;;
              ret (inl (createUrlErrorResponse error))) ;;
       match parsed with
       | inl early => ret early
       | inr (m3u8Url, refUrl) =>
           emit (ConsoleLog ("Fetching playlist: " ++ m3u8Url
                             ++ " (ref: " ++ refUrl ++ ")")) ;;;
           proxyHeaders <- createProxyHeaders refUrl None ;;
           response <- fetchWithConfig m3u8Url (Some proxyHeaders) None ;;
           let playlistText := text response in
           processedPlaylist <- processPlaylistContent playlistText m3u8Url refUrl ;;
           ret (createCorsResponse (Some processedPlaylist)
                  [ ("Content-Type", "application/vnd.apple.mpegurl") ])
       end)
    (fun err => createHttpErrorResponse err "proxy M3U8 playlist").

End WithHost.
End M3u8Handler.

(** ** src/handlers/segmentHandler.js *)

Module SegmentHandler.
Import HttpClient UrlUtils Cors.

Definition determineContentType (response : Response) (segmentUrl : string) : string :=
  let responseContentType := Headers_get (headers response) "content-type" in
  if negb (falsy responseContentType) then toStr responseContentType
  else if JS.endsWith segmentUrl ".ts" then "video/MP2T"
  else if JS.endsWith segmentUrl ".m4s" then "video/mp4"
  else if JS.endsWith segmentUrl ".webm" then "video/webm"
  else "application/octet-stream".

Definition createSegmentHeaders (contentType : string) : Obj :=
  [ ("Content-Type", contentType);
    ("Cache-Control", "public, max-age=3600");
    ("Accept-Ranges", "bytes") ].

Section WithHost.
Context {host : Host}.

Definition proxySegment (request : Request) (url : URL) : M Response :=
  try_catch
    (let validation := validateQueryParams (searchParams url) ["url"; "ref"] in
     if negb (isValid validation) then
       emit (ConsoleError ("[proxySegment][Request Error] Missing query params: "
                           ++ JS.join ", " (missing validation))) ;;;
       ret (createParamErrorResponse (missing validation))
     else
       let segParam := Obj_get (params validation) "url" in
       let refParam := Obj_get (params validation) "ref" in
       parsed <-
         try_catch
           (segmentUrl <- parseUrl (toStr segParam) ;;
            refUrl <- parseUrl (toStr refParam) ;;
            ret (inr (href segmentUrl, href refUrl)))
           (fun error =>
              emit (ConsoleError ("[proxySegment][URL Parse Error] " ++ message error)) ;;;
              ret (inl (createUrlErrorResponse error))) ;;
       match parsed with
       | inl early => ret early
       | inr (segmentUrl, refUrl) =>
           emit (ConsoleLog ("Fetching segment: " ++ segmentUrl
                             ++ " (ref: " ++ refUrl ++ ")")) ;;;
           proxyHeaders <- createProxyHeaders refUrl None ;;
           response <- fetchWithConfig segmentUrl (Some proxyHeaders) None ;;
           let contentType := determineContentType response segmentUrl in
           let segmentHeaders := createSegmentHeaders contentType in
           ret (createCorsResponse (body response) segmentHeaders)
       end)
    (fun err => createHttpErrorResponse err "fetch video segment").

End WithHost.
End SegmentHandler.

(** ** src/index.js *)

Module Index.
Import Cors.
Section WithHost.
Context {host : Host}.

Definition ENDPOINTS : JSON := JArray [JString "/player/stream"; JString "/segment"].

(** The worker's [fetch(request, env, ctx)] entry point. *)
Definition fetch (request : Request) : M Response :=
  url <- lift (new_URL (req_url request) None) ;;
  if String.eqb (req_method request) "OPTIONS" then
    ret handleOptions
  else if negb (String.eqb (req_method request) "GET") then
    ret (new_Response (Some "Method not allowed") (Some 405%Z)
           [ ("Content-Type", "application/json") ])
  else if String.eqb (pathname url) "/player/stream" then
    M3u8Handler.proxyM3U8 request url
  else if String.eqb (pathname url) "/segment" then
    SegmentHandler.proxySegment request url
  else if String.eqb (pathname url) "/" || String.eqb (pathname url) "/health" then
    ret (new_Response
           (Some (Json.stringify
                    (JObject [ ("status", JString "ok");
                               ("service", JString "Video Proxy Worker");
                               ("endpoints", ENDPOINTS) ])))
           None
           [ ("Content-Type", "application/json") ])
  else
    ret (new_Response
           (Some (Json.stringify
                    (JObject [ ("error", JString "Not found");
                               ("available_endpoints", ENDPOINTS) ])))
           (Some 404%Z)
           [ ("Content-Type", "application/json") ]).

End WithHost.
End Index.

(** ** A reference host

    [WebURL] follows the URL Standard (WHATWG) for the URLs a playlist
    proxy meets: scheme http or https, a host name of ASCII letters,
    digits, [-] and [.], an optional port, no credentials.  It is used to
    evaluate the program on concrete inputs.  A string outside that range
    (another scheme, credentials, an IP address, an internationalised host,
    non-ASCII bytes in a query) is answered like a string the standard
    rejects; the theorems that quantify over [Host] do not depend on it. *)

Module WebURL.

Record Parsed := mkParsed {
  scheme : string;
  host : string;
  port : option N;
  path : list string;
  query : option string;
  fragment : option string
}.

Definition isCode (c : ascii) (n : N) : bool := (JS.code c =? n)%N.

Definition isSlash (c : ascii) : bool := isCode c 47 || isCode c 92.

(** Leading and trailing C0 controls and spaces are dropped, tabs and
    newlines are removed everywhere. *)
Definition c0OrSpace (c : ascii) : bool := (JS.code c <=? 32)%N.

Fixpoint stripStart (s : string) : string :=
  match s with
  | "" => ""
  | String c s' => if c0OrSpace c then stripStart s' else s
  end.

Fixpoint stripEnd (s : string) : string :=
  match s with
  | "" => ""
  | String c s' =>
      match stripEnd s' with
      | "" => if c0OrSpace c then "" else String c ""
      | t => String c t
      end
  end.

Fixpoint removeTabNl (s : string) : string :=
  match s with
  | "" => ""
  | String c s' =>
      if isCode c 9 || isCode c 10 || isCode c 13 then removeTabNl s' else String c (removeTabNl s')
  end.

(** The longest prefix free of [stop] characters, and what follows it. *)
Fixpoint takeUntil (stop : ascii -> bool) (s : string) : string * string :=
  match s with
  | "" => ("", "")
  | String c s' =>
      if stop c then ("", s)
      else let (a, b) := takeUntil stop s' in (String c a, b)
  end.

Fixpoint skipSlashes (s : string) : string :=
  match s with
  | "" => ""
  | String c s' => if isSlash c then skipSlashes s' else s
  end.

Fixpoint forallb_str (p : ascii -> bool) (s : string) : bool :=
  match s with
  | "" => true
  | String c s' => p c && forallb_str p s'
  end.

Definition schemeChar (c : ascii) : bool :=
  JS.isAlpha c || JS.isDigit c || JS.mem c "+-.".

(** [Some (scheme, rest)] when the input opens with [scheme:]. *)
Definition splitScheme (s : string) : option (string * string) :=
  match s with
  | String c _ =>
      if JS.isAlpha c then
        match takeUntil (fun d => negb (schemeChar d)) s with
        | (sch, String d rest) => if isCode d 58 then Some (JS.toLower sch, rest) else None
        | _ => None
        end
      else None
  | "" => None
  end.

(** Percent-encode sets. *)
Definition c0Set (c : ascii) : bool := ((JS.code c <? 32) || (126 <? JS.code c))%N.
Definition fragmentSet (c : ascii) : bool :=
  c0Set c || isCode c 32 || isCode c 34 || isCode c 60 || isCode c 62 || isCode c 96.
Definition querySet (c : ascii) : bool :=
  c0Set c || isCode c 32 || isCode c 34 || isCode c 35 || isCode c 60 || isCode c 62.
Definition specialQuerySet (c : ascii) : bool := querySet c || isCode c 39.
Definition pathSet (c : ascii) : bool :=
  querySet c || isCode c 63 || isCode c 94 || isCode c 96 || isCode c 123 || isCode c 125.

Fixpoint encode (set : ascii -> bool) (s : string) : string :=
  match s with
  | "" => ""
  | String c s' => (if set c then JS.pctUtf8 c else String c "") ++ encode set s'
  end.

Definition isSingleDot (b : string) : bool :=
  let l := JS.toLower b in String.eqb l "." || String.eqb l "%2e".

Definition isDoubleDot (b : string) : bool :=
  let l := JS.toLower b in
  String.eqb l ".." || String.eqb l ".%2e" || String.eqb l "%2e." || String.eqb l "%2e%2e".

Definition shorten (p : list string) : list string := removelast p.

(** The path state at the end of a segment; [slash] tells whether the
    segment was closed by a slash. *)
Definition pushSegment (buffer : string) (p : list string) (slash : bool) : list string :=
  if isDoubleDot buffer then
    if slash then shorten p else (shorten p ++ [""])%list
  else if isSingleDot buffer then
    if slash then p else (p ++ [""])%list
  else (p ++ [buffer])%list.

(** The path state: the path, and the input left at [?], [#] or the end. *)
Fixpoint pathState (s : string) (buffer : string) (p : list string) : list string * string :=
  match s with
  | "" => (pushSegment buffer p false, "")
  | String c s' =>
      if isSlash c then pathState s' "" (pushSegment buffer p true)
      else if isCode c 63 || isCode c 35 then (pushSegment buffer p false, s)
      else pathState s' (buffer ++ (if pathSet c then JS.pctUtf8 c else String c "")) p
  end.

Definition pathStart (s : string) : list string * string :=
  match s with
  | String c s' => if isSlash c then pathState s' "" [] else pathState s "" []
  | "" => pathState "" "" []
  end.

(** The query and fragment states, from input that is empty or opens with
    [?] or [#]. *)
Definition queryAndFragment (s : string) (q0 : option string) : option string * option string :=
  match s with
  | String c s' =>
      if isCode c 63 then
        let (q, r) := takeUntil (fun d => isCode d 35) s' in
        (Some (encode specialQuerySet q),
         match r with
         | String _ f => Some (encode fragmentSet f)
         | "" => None
         end)
      else (q0, Some (encode fragmentSet s'))
  | "" => (q0, None)
  end.

Fixpoint parseDigits (s : string) (acc : N) : option N :=
  match s with
  | "" => Some acc
  | String c s' =>
      if JS.isDigit c then parseDigits s' (10 * acc + (JS.code c - 48))%N else None
  end.

Definition defaultPort (sch : string) : N := if String.eqb sch "http" then 80 else 443.

Definition hostChar (c : ascii) : bool :=
  JS.isAlpha c || JS.isDigit c || isCode c 45 || isCode c 46.

(** The last label of a host name, a closing dot set aside. *)
Fixpoint lastLabel (s : string) (cur : string) : string :=
  match s with
  | "" => cur
  | String c s' =>
      if isCode c 46 then
        match s' with
        | "" => cur
        | _ => lastLabel s' ""
        end
      else lastLabel s' (cur ++ String c "")
  end.

Definition startsWithDigit (s : string) : bool :=
  match s with
  | String c _ => JS.isDigit c
  | "" => false
  end.

Definition parseHost (h : string) : option string :=
  if String.eqb h "" then None
  else if negb (forallb_str hostChar h) then None
  else if startsWithDigit (lastLabel h "") then None
  else if JS.includes (JS.toLower h) "xn--" then None
  else Some (JS.toLower h).

(** The authority, path, query and fragment of a special URL, after the
    slashes that follow the scheme. *)
Definition authorityOn (sch : string) (s : string) : option Parsed :=
  let (auth, rest) := takeUntil (fun c => isSlash c || isCode c 63 || isCode c 35) s in
  if JS.mem (ascii_of_N 64) auth then None
  else
    let (h, portPart) := takeUntil (fun c => isCode c 58) auth in
    match parseHost h with
    | None => None
    | Some h' =>
        let prt :=
          match portPart with
          | String _ digits =>
              match parseDigits digits 0 with
              | Some n =>
                  if (65535 <? n)%N then None
                  else if String.eqb digits "" then Some None
                  else if (n =? defaultPort sch)%N then Some None
                  else Some (Some n)
              | None => None
              end
          | "" => Some None
          end in
        match prt with
        | None => None
        | Some prt' =>
            let (p, r) := pathStart rest in
            let (q, f) := queryAndFragment r None in
            Some (mkParsed sch h' prt' p q f)
        end
    end.

(** The relative state, for a special base. *)
Definition relativeOn (b : Parsed) (s : string) : option Parsed :=
  match s with
  | "" => Some (mkParsed (scheme b) (host b) (port b) (path b) (query b) None)
  | String c s' =>
      if isSlash c then
        match s' with
        | String d s'' =>
            if isSlash d then authorityOn (scheme b) (skipSlashes s'')
            else
              let (p, r) := pathState s' "" [] in
              let (q, f) := queryAndFragment r None in
              Some (mkParsed (scheme b) (host b) (port b) p q f)
        | "" =>
            Some (mkParsed (scheme b) (host b) (port b) (fst (pathState "" "" [])) None None)
        end
      else if isCode c 63 then
        let (q, f) := queryAndFragment s None in
        Some (mkParsed (scheme b) (host b) (port b) (path b) q f)
      else if isCode c 35 then
        let (q, f) := queryAndFragment s (query b) in
        Some (mkParsed (scheme b) (host b) (port b) (path b) q f)
      else
        let (p, r) := pathState s "" (shorten (path b)) in
        let (q, f) := queryAndFragment r None in
        Some (mkParsed (scheme b) (host b) (port b) p q f)
  end.

Definition isSpecial (sch : string) : bool :=
  String.eqb sch "http" || String.eqb sch "https".

(** The basic URL parser. *)
Definition parse (input : string) (base : option Parsed) : option Parsed :=
  let s := removeTabNl (stripEnd (stripStart input)) in
  match splitScheme s with
  | Some (sch, rest) =>
      if isSpecial sch then
        match base with
        | Some b =>
            if String.eqb (scheme b) sch && negb (String.prefix "//" rest)
            then relativeOn b rest
            else authorityOn sch (skipSlashes rest)
        | None => authorityOn sch (skipSlashes rest)
        end
      else None
  | None =>
      match base with
      | Some b => relativeOn b s
      | None => None
      end
  end.

Definition serializeOrigin (u : Parsed) : string :=
  scheme u ++ "://" ++ host u ++
  match port u with
  | Some n => ":" ++ JS.showZ (Z.of_N n)
  | None => ""
  end.

Definition serializePath (u : Parsed) : string :=
  String.concat "" (map (fun seg => "/" ++ seg) (path u)).

Definition serialize (u : Parsed) : string :=
  serializeOrigin u ++ serializePath u
  ++ match query u with Some q => "?" ++ q | None => "" end
  ++ match fragment u with Some f => "#" ++ f | None => "" end.

(** [url.searchParams]: the query split at [&] and at the first [=] of
    each piece, [+] read as a space, percent escapes decoded. *)
Definition hexValue (c : ascii) : option N :=
  let n := JS.code c in
  if JS.isDigit c then Some (n - 48)%N
  else if ((65 <=? n) && (n <=? 70))%N then Some (n - 55)%N
  else if ((97 <=? n) && (n <=? 102))%N then Some (n - 87)%N
  else None.

Fixpoint pctDecode (s : string) : string :=
  match s with
  | "" => ""
  | String c s' =>
      let plain := String (if isCode c 43 then ascii_of_N 32 else c) (pctDecode s') in
      if isCode c 37 then
        match s' with
        | String h (String l s'') =>
            match hexValue h, hexValue l with
            | Some a, Some b => String (ascii_of_N (16 * a + b)) (pctDecode s'')
            | _, _ => plain
            end
        | _ => plain
        end
      else plain
  end.

Fixpoint splitOn (sep : N) (s : string) : list string :=
  match s with
  | "" => [""]
  | String c s' =>
      if isCode c sep then "" :: splitOn sep s'
      else
        match splitOn sep s' with
        | [] => [String c ""]
        | l :: ls => String c l :: ls
        end
  end.

Definition formPair (piece : string) : string * string :=
  let (k, r) := takeUntil (fun c => isCode c 61) piece in
  (pctDecode k, pctDecode (match r with String _ v => v | "" => "" end)).

Definition formParse (q : string) : list (string * string) :=
  map formPair (filter (fun piece => negb (String.eqb piece "")) (splitOn 38 q)).

Definition ascii7 (s : string) : bool := forallb_str (fun c => (JS.code c <? 128)%N) s.

Definition toURL (u : Parsed) : option URL :=
  let sp := formParse (match query u with Some q => q | None => "" end) in
  if forallb (fun kv => ascii7 (fst kv) && ascii7 (snd kv)) sp then
    Some (mkURL (serialize u) (serializeOrigin u) (host u) (serializePath u) sp)
  else None.

(** [new URL(input, base)] *)
Definition construct (input : string) (base : option string) : Error + URL :=
  let failure := inl (mkError "TypeError" "Invalid URL") in
  let parsed :=
    match base with
    | Some b =>
        match parse b None with
        | Some pb => parse input (Some pb)
        | None => None
        end
    | None => parse input None
    end in
  match parsed with
  | Some u =>
      match toURL u with
      | Some v => inr v
      | None => failure
      end
  | None => failure
  end.

End WebURL.

(** The reference host over a given network and clock. *)
Definition webHost (net : string -> Headers -> Z -> Error + Response) (clock : string) : Host :=
  {| new_URL := WebURL.construct; fetch := net; Date_toISOString := clock |}.

(** A network with nothing behind it, and one that answers every request
    with the same response. *)
Definition unreachable : string -> Headers -> Z -> Error + Response :=
  fun _ _ _ => inl (mkError "TypeError" "Network connection lost").

Definition answering (r : Response) : string -> Headers -> Z -> Error + Response :=
  fun _ _ _ => inr r.

Definition CLOCK : string := "2024-01-01T00:00:00.000Z".

Definition offline : Host := webHost unreachable CLOCK.

(** ** The playlist scan, by the lines still ahead

    [scan] is the loop of [processPlaylistContent] told by the lines from
    the cursor on instead of by the cursor; [loop_scan] shows that the
    loop computes it. *)

Module Scan.
Import M3u8Handler.
Section WithHost.
Context {host : Host}.
Variables baseForRelative refUrl : string.

Definition isTag (raw : string) : bool := JS.startsWith (JS.trim raw) STREAM_INF.

(** A line rewritten as a segment reference when the scan stands on it. *)
Definition isBareURI (raw : string) : bool :=
  negb (String.eqb (JS.trim raw) "") && negb (JS.startsWith (JS.trim raw) "#").

Fixpoint scan (ahead : list string) (out : list string) : M (list string) :=
  match ahead with
  | [] => ret out
  | raw :: tl =>
      let line := JS.trim raw in
      if JS.startsWith line STREAM_INF then
        match tl with
        | [] => emit MISSING_URI ;;; ret (out ++ [line])%list
        | raw' :: tl' =>
            let next := JS.trim raw' in
            if String.eqb next "" then
              emit MISSING_URI ;;; scan tl' (out ++ [line])%list
            else
              abs <- resolve next baseForRelative ;;
              scan tl' ((out ++ [line]) ++ [streamRef abs refUrl])%list
        end
      else if negb (String.eqb line "") && negb (JS.startsWith line "#") then
        abs <- resolve line baseForRelative ;;
        scan tl (out ++ [segmentRef abs refUrl])%list
      else scan tl (out ++ [line])%list
  end.

(** The rewrite of a list of lines on its own. *)
Definition rewriteLines (lines : list string) : M (list string) :=
  loop (List.length lines) lines baseForRelative refUrl 0 [].

End WithHost.

(** [awaitsURI pre]: the scan of [pre] ends on a [#EXT-X-STREAM-INF] line
    that it read as its current line, so that the line after [pre] is
    taken as that tag's URI.  When it is [false], the scan reads the line
    after [pre] as its current line. *)
Fixpoint awaitsURI (pre : list string) : bool :=
  match pre with
  | [] => false
  | raw :: tl =>
      if isTag raw then
        match tl with
        | [] => true
        | _ :: tl' => awaitsURI tl'
        end
      else awaitsURI tl
  end.

End Scan.

(** The playlist and the referer of the examples. *)
Definition PLAYLIST_URL : string := "https://cdn.example.com/live/index.m3u8".
Definition REFERER : string := "https://site.example.com/".

(** A turned-down upstream answer, as [fetchWithConfig] throws it. *)
Definition upstreamError (response : Response) : Error :=
  mkError "Error" ("HTTP " ++ JS.showZ (status response) ++ ": " ++ statusText response).

(** The required parameters that [validateQueryParams] finds absent or
    empty, in the order it checks them. *)
Definition absentParams (sp : list (string * string)) (requiredParams : list string) : list string :=
  filter (fun param => falsy (searchParams_get sp param)) requiredParams.

(** The body of the answer to a request that lacks [missingParams]. *)
Definition paramErrorBody (missingParams : list string) : string :=
  Json.stringify
    (JObject [ ("error", JString ("Missing required query parameters: "
                                  ++ JS.join ", " missingParams));
               ("required", JArray (map JString missingParams)) ]).

(** A line the scan passes through as it is, trimmed: a blank line, or a
    comment or tag line other than [#EXT-X-STREAM-INF]. *)
Definition isPassThrough (raw : string) : bool :=
  negb (Scan.isTag raw) && negb (Scan.isBareURI raw).

(** The last value an object holds under a name, names compared without
    regard to case, as [headers.set] calls over its entries leave it. *)
Fixpoint lastValue (o : Obj) (k : string) : option string :=
  match o with
  | [] => None
  | (k', v) :: tl =>
      match lastValue tl k with
      | Some w => Some w
      | None => if String.eqb (JS.toLower k') (JS.toLower k) then Some v else None
      end
  end.

(** The last value a plain object literal holds under a key. *)
Fixpoint lastEntry (o : Obj) (k : string) : option string :=
  match o with
  | [] => None
  | (k', v) :: tl =>
      match lastEntry tl k with
      | Some w => Some w
      | None => if String.eqb k' k then Some v else None
      end
  end.


(** A string free of line feeds, and one that is also a whole line of a
    text split by [splitLines]: no line feed in it, no carriage return at
    its end. *)
Definition noLF (s : string) : bool :=
  WebURL.forallb_str (fun c => negb (JS.code c =? 10)%N) s.

Fixpoint wholeLine (s : string) : bool :=
  match s with
  | "" => true
  | String c s' =>
      negb (JS.code c =? 10)%N
      && match s' with
         | "" => negb (JS.code c =? 13)%N
         | _ => true
         end
      && wholeLine s'
  end.

(** Text free of line feeds and carriage returns. *)
Definition plain (s : string) : bool :=
  WebURL.forallb_str (fun c => negb (JS.code c =? 10)%N && negb (JS.code c =? 13)%N) s.

(** A line of the rewritten playlist that is no bare URI: it is blank,
    a comment or tag, or a reference into the proxy. *)
Definition proxied (line : string) : bool :=
  String.eqb line "" || JS.startsWith line "#"
  || JS.startsWith line "/player/stream?url=" || JS.startsWith line "/segment?url=".

(** What a finished scan of [lines], with log [t], has added to the
    output. *)
Record Emitted (lines : list string) (t : list Event) (emitted : list string) : Prop := {
  emitted_whole : Forall (fun l => wholeLine l = true) emitted;
  emitted_proxied : Forall (fun l => proxied l = true) emitted;
  emitted_le : (List.length emitted <= List.length lines)%nat;
  emitted_eq : t = [] -> List.length emitted = List.length lines;
  emitted_some : lines <> [] -> emitted <> []
}.



(** The number of outbound requests in a trace. *)
Definition fetches (t : list Event) : nat := List.length (filter is_fetch t).

(** A character that the URL parser keeps where a reference has it: it is
    above the space and is neither [&] nor [#]. *)
Definition safeChar (c : ascii) : bool :=
  (32 <? JS.code c)%N && negb (WebURL.isCode c 38) && negb (WebURL.isCode c 35).

Definition safe (s : string) : bool := WebURL.forallb_str safeChar s.

(** A component as it stands in the query of a parsed URL: written by
    [encodeURIComponent], then passed through the query state. *)
Definition inQuery (s : string) : string :=
  WebURL.encode WebURL.specialQuerySet (JS.encodeURIComponent s).

(** [decodesTo c e]: the text [e] is the character [c] itself, which is
    neither [%] nor [+], or one percent escape of its code. *)
Definition decodesTo (c : ascii) (e : string) : bool :=
  match e with
  | String d "" =>
      Ascii.eqb d c && negb (WebURL.isCode d 37) && negb (WebURL.isCode d 43)
  | String p (String h (String l "")) =>
      WebURL.isCode p 37
      && match WebURL.hexValue h, WebURL.hexValue l with
         | Some a, Some b => Ascii.eqb (ascii_of_N (16 * a + b)) c
         | _, _ => false
         end
  | _ => false
  end.

Example url_dir :
  outcome (@M3u8Handler.resolve offline "." "https://cdn.example.com/live/index.m3u8")
  = inr "https://cdn.example.com/live/".
Proof. reflexivity. Qed.

Example url_rel :
  outcome (@M3u8Handler.resolve offline "../a b/x.ts?t=1#f" "https://cdn.example.com/live/hd/index.m3u8?k=v")
  = inr "https://cdn.example.com/live/a%20b/x.ts?t=1#f".
Proof. reflexivity. Qed.

Example url_abs :
  outcome (@M3u8Handler.resolve offline "HTTP://Other.Example.com:80/p//q/./r" "https://cdn.example.com/live/")
  = inr "http://other.example.com/p//q/r".
Proof. reflexivity. Qed.

Example url_frag :
  outcome (@M3u8Handler.resolve offline "#EXT-X-STREAM-INF:B" "https://cdn.example.com/live/")
  = inr "https://cdn.example.com/live/#EXT-X-STREAM-INF:B".
Proof. reflexivity. Qed.

Example url_nohost :
  outcome (@M3u8Handler.resolve offline "http://" "https://cdn.example.com/live/")
  = inl (mkError "TypeError" "Invalid URL").
Proof. reflexivity. Qed.

Example url_params :
  option_map searchParams
    (match WebURL.construct "https://w.example.com/segment?url=https%3A%2F%2Fa.example.com%2Fs.ts&ref=&x=1+2" None with
     | inr u => Some u
     | inl _ => None
     end)
  = Some [("url", "https://a.example.com/s.ts"); ("ref", ""); ("x", "1 2")].
Proof. reflexivity. Qed.


Example split_crlf :
  JS.splitLines ("a" ++ String JS.CR (String JS.LF "b") ++ String JS.LF "")
  = ["a"; "b"; ""].
Proof. reflexivity. Qed.

Example enc_url :
  JS.encodeURIComponent "https://site.example.com/" = "https%3A%2F%2Fsite.example.com%2F".
Proof. reflexivity. Qed.

Example show_404 : JS.showZ 404 = "404".
Proof. reflexivity. Qed.

Example trim_ex : JS.trim ("  a b " ++ String JS.CR "") = "a b".
Proof. reflexivity. Qed.

(** ** Laws of the effect monad *)

Lemma bind_ret_l {A B} (a : A) (k : A -> M B) : bind (ret a) k = k a.
Proof. unfold bind, ret. destruct (k a) as [t r]. reflexivity. Qed.

Lemma bind_ret_r {A} (m : M A) : bind m ret = m.
Proof.
  destruct m as [t [e | a]]; simpl; [reflexivity |].
  now rewrite app_nil_r.
Qed.

Lemma bind_assoc {A B C} (m : M A) (f : A -> M B) (g : B -> M C) :
  bind (bind m f) g = bind m (fun a => bind (f a) g).
Proof.
  destruct m as [t [e | a]]; simpl; [reflexivity |].
  destruct (f a) as [t1 [e1 | b]]; simpl; [reflexivity |].
  destruct (g b) as [t2 r2]. now rewrite app_assoc.
Qed.

Lemma bind_throw {A B} (e : Error) (k : A -> M B) : bind (throw e) k = throw e.
Proof. reflexivity. Qed.

Lemma bind_ext {A B} (m : M A) (f g : A -> M B) :
  (forall a, f a = g a) -> bind m f = bind m g.
Proof.
  intros E. destruct m as [t [e | a]]; simpl; [reflexivity |].
  now rewrite E.
Qed.

(** ** The loop of the playlist rewriter *)

Module ScanFacts.
Import M3u8Handler Scan.

#[local] Arguments JS.trim : simpl never.
#[local] Arguments JS.startsWith : simpl never.
#[local] Arguments resolve : simpl never.
#[local] Arguments String.eqb : simpl never.

Lemma skipn_nth {A} (d : A) (l : list A) (i : nat) :
  (i < List.length l)%nat -> skipn i l = nth i l d :: skipn (S i) l.
Proof.
  revert i. induction l as [| a l IH]; intros i Hi; simpl in Hi; [lia |].
  destruct i as [| i]; [reflexivity |].
  simpl. apply IH. lia.
Qed.

Lemma emit_bind {B} (ev : Event) (k : unit -> M B) (k' : unit -> M B) :
  k tt = k' tt -> bind (emit ev) k = bind (emit ev) k'.
Proof. intros E. unfold bind, emit. now rewrite E. Qed.

Section WithHost.
Context {host : Host}.
Variables baseForRelative refUrl : string.


(** With a turn of fuel for every line from the cursor on, the loop runs
    to the end of the playlist and computes [scan] of those lines. *)
Lemma loop_scan (fuel : nat) :
  forall (lines : list string) (i : nat) (out : list string),
    (List.length lines - i <= fuel)%nat ->
    loop fuel lines baseForRelative refUrl i out = scan baseForRelative refUrl (skipn i lines) out.
Proof.
  induction fuel as [| fuel IH]; intros lines i out Hf.
  - simpl. rewrite skipn_all2 by lia. reflexivity.
  - cbn [loop]. destruct (i <? List.length lines)%nat eqn:Hi.
    + apply Nat.ltb_lt in Hi.
      rewrite (skipn_nth "" lines i Hi).
      assert (Hnext : (List.length lines <= S i)%nat /\ skipn (S i) lines = []
                      /\ nth (S i) lines "" = ""
                      \/ skipn (S i) lines = nth (S i) lines "" :: skipn (S (S i)) lines).
      { destruct (Nat.lt_ge_cases (S i) (List.length lines)) as [Hn | Hn].
        - right. now apply skipn_nth.
        - left. repeat split; [lia | now apply skipn_all2 | now apply nth_overflow]. }
      cbn [scan]. unfold loopBody.
      destruct (JS.startsWith (JS.trim (nth i lines "")) STREAM_INF).
      * destruct Hnext as [(Hlen & Hs & Hn) | Hs]; rewrite Hs.
        -- rewrite Hn. change (String.eqb (JS.trim "") "") with true. cbv iota.
           rewrite bind_assoc. apply emit_bind.
           rewrite bind_ret_l. cbn [fst snd].
           rewrite IH by lia. rewrite skipn_all2 by lia. reflexivity.
        -- destruct (String.eqb (JS.trim (nth (S i) lines "")) "").
           ++ rewrite bind_assoc. apply emit_bind.
              rewrite bind_ret_l. cbn [fst snd]. apply IH. lia.
           ++ rewrite bind_assoc. apply bind_ext. intros abs.
              rewrite bind_ret_l. cbn [fst snd]. apply IH. lia.
      * destruct (negb (String.eqb (JS.trim (nth i lines "")) "")
                  && negb (JS.startsWith (JS.trim (nth i lines "")) "#")).
        -- rewrite bind_assoc. apply bind_ext. intros abs.
           rewrite bind_ret_l. cbn [fst snd]. apply IH. lia.
        -- rewrite bind_ret_l. cbn [fst snd]. apply IH. lia.
    + apply Nat.ltb_ge in Hi. rewrite skipn_all2 by lia. reflexivity.
Qed.


Lemma rewriteLines_scan (lines : list string) :
  rewriteLines baseForRelative refUrl lines = scan baseForRelative refUrl lines [].
Proof. unfold rewriteLines. now rewrite loop_scan by lia. Qed.

(** The output so far is only carried along. *)
Lemma scan_out_le (n : nat) :
  forall (ahead : list string), (List.length ahead <= n)%nat ->
  forall out, scan baseForRelative refUrl ahead out = bind (scan baseForRelative refUrl ahead []) (fun o => ret (out ++ o)%list).
Proof.
  induction n as [| n IH]; intros ahead Hl out.
  - destruct ahead; [| simpl in Hl; lia].
    cbn [scan]. rewrite bind_ret_l. now rewrite app_nil_r.
  - destruct ahead as [| raw tl].
    { cbn [scan]. rewrite bind_ret_l. now rewrite app_nil_r. }
    simpl in Hl. cbn [scan].
    destruct (JS.startsWith (JS.trim raw) STREAM_INF).
    + destruct tl as [| raw' tl'].
      * rewrite bind_assoc. apply emit_bind. now rewrite bind_ret_l.
      * simpl in Hl. destruct (String.eqb (JS.trim raw') "").
        -- rewrite bind_assoc. apply emit_bind.
           rewrite (IH tl') by lia. rewrite (IH tl' ltac:(lia) ([] ++ _)%list).
           rewrite bind_assoc. apply bind_ext. intros o.
           rewrite bind_ret_l. cbn [app]. now rewrite <- app_assoc.
        -- rewrite bind_assoc. apply bind_ext. intros abs.
           rewrite (IH tl') by lia. rewrite (IH tl' ltac:(lia) (([] ++ _) ++ _)%list).
           rewrite bind_assoc. apply bind_ext. intros o.
           rewrite bind_ret_l. cbn [app]. now rewrite <- !app_assoc.
    + destruct (negb (String.eqb (JS.trim raw) "") && negb (JS.startsWith (JS.trim raw) "#")).
      * rewrite bind_assoc. apply bind_ext. intros abs.
        rewrite (IH tl) by lia. rewrite (IH tl ltac:(lia) ([] ++ _)%list).
        rewrite bind_assoc. apply bind_ext. intros o.
        rewrite bind_ret_l. cbn [app]. now rewrite <- app_assoc.
      * rewrite (IH tl) by lia. rewrite (IH tl ltac:(lia) ([] ++ _)%list).
        rewrite bind_assoc. apply bind_ext. intros o.
        rewrite bind_ret_l. cbn [app]. now rewrite <- app_assoc.
Qed.

Lemma scan_out (ahead out : list string) :
  scan baseForRelative refUrl ahead out = bind (scan baseForRelative refUrl ahead []) (fun o => ret (out ++ o)%list).
Proof. now apply (scan_out_le (List.length ahead)). Qed.

(** When the scan of [pre] leaves no tag waiting for its URI, the lines
    after [pre] are scanned as they would be from a fresh cursor. *)
Lemma scan_app_le (n : nat) (rest : list string) :
  forall (pre : list string), (List.length pre <= n)%nat ->
  awaitsURI pre = false ->
  forall out, scan baseForRelative refUrl (pre ++ rest) out = bind (scan baseForRelative refUrl pre out) (fun o => scan baseForRelative refUrl rest o).
Proof.
  induction n as [| n IH]; intros pre Hl Hw out.
  - destruct pre; [| simpl in Hl; lia]. cbn [app scan]. now rewrite bind_ret_l.
  - destruct pre as [| raw tl].
    { cbn [app scan]. now rewrite bind_ret_l. }
    simpl in Hl. cbn [awaitsURI] in Hw. unfold isTag in Hw.
    rewrite <- app_comm_cons. cbn [scan].
    destruct (JS.startsWith (JS.trim raw) STREAM_INF).
    + destruct tl as [| raw' tl']; [discriminate |].
      simpl in Hl. rewrite <- app_comm_cons.
      destruct (String.eqb (JS.trim raw') "").
      * rewrite bind_assoc. apply emit_bind. apply IH; [lia | assumption].
      * rewrite bind_assoc. apply bind_ext. intros abs. apply IH; [lia | assumption].
    + destruct (negb (String.eqb (JS.trim raw) "") && negb (JS.startsWith (JS.trim raw) "#")).
      * rewrite bind_assoc. apply bind_ext. intros abs. apply IH; [lia | assumption].
      * apply IH; [lia | assumption].
Qed.

Lemma scan_app (pre rest out : list string) :
  awaitsURI pre = false ->
  scan baseForRelative refUrl (pre ++ rest) out = bind (scan baseForRelative refUrl pre out) (fun o => scan baseForRelative refUrl rest o).
Proof. intros Hw. now apply (scan_app_le (List.length pre) rest pre). Qed.

End WithHost.

(** The rewriter is the scan of the lines of the text from its first
    line, the output joined with line feeds. *)
Lemma processPlaylistContent_scan {host : Host} (playlistText m3u8Url refUrl : string) :
  processPlaylistContent playlistText m3u8Url refUrl =
  (base <- resolve "." m3u8Url ;;
   out <- scan base refUrl (JS.splitLines playlistText) [] ;;
   ret (JS.join NL out)).
Proof.
  unfold processPlaylistContent. apply bind_ext. intros base.
  now rewrite loop_scan by lia.
Qed.

End ScanFacts.

(** ** The playlist rewriter: claims C1 to C4 *)

Module Playlist.
Import M3u8Handler Scan ScanFacts.

(** [#] opens [#EXT-X-STREAM-INF]: a line that does not start with [#] is
    no tag line. *)
Lemma tag_starts_with_hash (line : string) :
  JS.startsWith line STREAM_INF = true -> JS.startsWith line "#" = true.
Proof.
  unfold JS.startsWith, STREAM_INF. intros H.
  destruct line as [| c line]; [discriminate H |].
  cbn [String.prefix] in *.
  destruct (Ascii.ascii_dec "#" c) as [E | E]; [| discriminate H].
  now destruct line.
Qed.

Lemma bare_not_tag (raw : string) : isBareURI raw = true -> isTag raw = false.
Proof.
  unfold isBareURI, isTag. intros H. apply andb_prop in H as [_ H].
  destruct (JS.startsWith (JS.trim raw) STREAM_INF) eqn:E; [| reflexivity].
  apply tag_starts_with_hash in E. rewrite E in H. discriminate.
Qed.

(** On the reference host, [.] resolves to the directory of the base:
    the base with its last path segment removed and a closing slash, its
    query and fragment dropped. *)
Lemma dot_is_directory (b : WebURL.Parsed) :
  WebURL.parse "." (Some b)
  = Some (WebURL.mkParsed (WebURL.scheme b) (WebURL.host b) (WebURL.port b)
            (removelast (WebURL.path b) ++ [""])%list None None).
Proof. reflexivity. Qed.

(** C1.  On the two lines [#EXT-X-STREAM-INF:BANDWIDTH=100] and
    [variant.m3u8], with the playlist at
    [https://cdn.example.com/live/index.m3u8] and the referer
    [https://site.example.com/], the rewriter returns two lines joined by a
    line feed: the tag line as it is, then the stream reference with the
    resolved URL and the referer percent-encoded. Nothing is logged and
    nothing is thrown. *)
Theorem C1_master_playlist_example
    (net : string -> Headers -> Z -> Error + Response) (clock : string) :
  @processPlaylistContent (webHost net clock)
    ("#EXT-X-STREAM-INF:BANDWIDTH=100" ++ NL ++ "variant.m3u8") PLAYLIST_URL REFERER
  = ret ("#EXT-X-STREAM-INF:BANDWIDTH=100" ++ NL ++
         "/player/stream?url=https%3A%2F%2Fcdn.example.com%2Flive%2Fvariant.m3u8&ref=https%3A%2F%2Fsite.example.com%2F").
Proof. vm_compute. reflexivity. Qed.

(** C2, as stated, fails: in the playlist of C1 the line [variant.m3u8]
    is non-empty after trimming and does not start with [#], yet the line
    emitted in its place is a [/player/stream] reference; the [/segment]
    reference of the claim is not among the output lines. *)
Lemma C2_counterexample :
  let playlistText := "#EXT-X-STREAM-INF:BANDWIDTH=100" ++ NL ++ "variant.m3u8" in
  nth_error (JS.splitLines playlistText) 1 = Some "variant.m3u8"
  /\ isBareURI "variant.m3u8" = true
  /\ @resolve offline "." PLAYLIST_URL = ret "https://cdn.example.com/live/"
  /\ @resolve offline "variant.m3u8" "https://cdn.example.com/live/"
     = ret "https://cdn.example.com/live/variant.m3u8"
  /\ exists out,
       @processPlaylistContent offline playlistText PLAYLIST_URL REFERER = ret out
       /\ ~ In (segmentRef "https://cdn.example.com/live/variant.m3u8" REFERER)
              (JS.splitLines out).
Proof.
  repeat split.
  exists ("#EXT-X-STREAM-INF:BANDWIDTH=100" ++ NL ++
          "/player/stream?url=https%3A%2F%2Fcdn.example.com%2Flive%2Fvariant.m3u8&ref=https%3A%2F%2Fsite.example.com%2F").
  split; [vm_compute; reflexivity |].
  vm_compute. intros [H | [H | []]]; discriminate H.
Qed.

(** C2, amended.  A line that the scan reads as its current line (it is
    not taken as the URI of a [#EXT-X-STREAM-INF] line just before it) and
    that, trimmed, is non-empty and does not start with [#] is replaced by
    the single line [/segment?url=E&ref=R]: [E] encodes the trimmed line
    resolved against the base, which is [.] resolved against the playlist
    URL, [R] encodes the referer.  The lines before and after it are
    rewritten as they would be on their own, and the rewrite fails exactly
    when one of the resolutions fails. *)
Theorem C2_bare_uri_segment_reference {host : Host}
    (playlistText m3u8Url refUrl : string) (pre : list string) (l : string)
    (rest : list string) :
  JS.splitLines playlistText = (pre ++ l :: rest)%list ->
  awaitsURI pre = false ->
  isBareURI l = true ->
  processPlaylistContent playlistText m3u8Url refUrl =
  (base <- resolve "." m3u8Url ;;
   before <- rewriteLines base refUrl pre ;;
   abs <- resolve (JS.trim l) base ;;
   after <- rewriteLines base refUrl rest ;;
   ret (JS.join NL (before ++ [segmentRef abs refUrl] ++ after)%list)).
Proof.
  intros Hs Hw Hb.
  rewrite processPlaylistContent_scan, Hs.
  apply bind_ext. intros base.
  rewrite scan_app by assumption. rewrite !rewriteLines_scan.
  rewrite !bind_assoc. apply bind_ext. intros before.
  cbn [scan]. pose proof (bare_not_tag l Hb) as Ht.
  unfold isTag in Ht. unfold isBareURI in Hb. rewrite Ht, Hb.
  rewrite !bind_assoc. apply bind_ext. intros abs.
  rewrite scan_out. rewrite !bind_assoc. apply bind_ext. intros after.
  rewrite !bind_ret_l. now rewrite <- app_assoc.
Qed.

Lemma C2_witness :
  @processPlaylistContent offline
    ("#EXTM3U" ++ NL ++ "  seg001.ts " ++ NL ++ "#EXT-X-ENDLIST") PLAYLIST_URL REFERER
  = ret ("#EXTM3U" ++ NL ++
         "/segment?url=https%3A%2F%2Fcdn.example.com%2Flive%2Fseg001.ts&ref=https%3A%2F%2Fsite.example.com%2F"
         ++ NL ++ "#EXT-X-ENDLIST").
Proof.
  rewrite (@C2_bare_uri_segment_reference offline _ PLAYLIST_URL REFERER
             ["#EXTM3U"] "  seg001.ts " ["#EXT-X-ENDLIST"]);
    vm_compute; reflexivity.
Defined.

(** C3, as stated, fails: the last line of this playlist starts with
    [#EXT-X-STREAM-INF], but the scan has taken it as the URI of the tag
    line before it.  The last tag line is not emitted, and a reference line
    stands in its place. *)
Lemma C3_counterexample :
  let playlistText := "#EXT-X-STREAM-INF:A" ++ NL ++ "#EXT-X-STREAM-INF:B" in
  isTag (last (JS.splitLines playlistText) "") = true
  /\ exists out,
       @processPlaylistContent offline playlistText PLAYLIST_URL REFERER = ret out
       /\ JS.splitLines out =
          [ "#EXT-X-STREAM-INF:A";
            "/player/stream?url=https%3A%2F%2Fcdn.example.com%2Flive%2F%23EXT-X-STREAM-INF%3AB&ref=https%3A%2F%2Fsite.example.com%2F" ]
       /\ ~ In "#EXT-X-STREAM-INF:B" (JS.splitLines out).
Proof.
  split; [vm_compute; reflexivity |].
  exists ("#EXT-X-STREAM-INF:A" ++ NL ++
          "/player/stream?url=https%3A%2F%2Fcdn.example.com%2Flive%2F%23EXT-X-STREAM-INF%3AB&ref=https%3A%2F%2Fsite.example.com%2F").
  split; [vm_compute; reflexivity |]. split; [vm_compute; reflexivity |].
  vm_compute. intros [H | [H | []]]; discriminate H.
Qed.

(** C3, amended.  Let a [#EXT-X-STREAM-INF] line that the scan reads as
    its current line (it is not taken as the URI of a tag line just before
    it) be the last line, or be followed by a line that is empty after
    trimming.  Then the missing URI is logged and raises nothing: the
    trimmed tag line is emitted, no reference line is emitted for it, and
    the lines before the tag and the lines after the consumed line are
    rewritten as they would be on their own.  The rewrite fails only when
    the base or a URI on one of those other lines fails to resolve. *)
Theorem C3_missing_uri_is_skipped {host : Host}
    (playlistText m3u8Url refUrl : string) (pre : list string) (t : string)
    (following : list string) :
  JS.splitLines playlistText = (pre ++ t :: following)%list ->
  awaitsURI pre = false ->
  isTag t = true ->
  (following = []
   \/ exists e rest, following = e :: rest /\ JS.trim e = "") ->
  processPlaylistContent playlistText m3u8Url refUrl =
  (base <- resolve "." m3u8Url ;;
   before <- rewriteLines base refUrl pre ;;
   emit MISSING_URI ;;;
   after <- rewriteLines base refUrl (tl following) ;;
   ret (JS.join NL (before ++ [JS.trim t] ++ after)%list)).
Proof.
  intros Hs Hw Ht Hf.
  rewrite processPlaylistContent_scan, Hs.
  apply bind_ext. intros base.
  rewrite scan_app by assumption. rewrite !rewriteLines_scan.
  rewrite !bind_assoc. apply bind_ext. intros before.
  cbn [scan]. unfold isTag in Ht. rewrite Ht.
  destruct Hf as [-> | (e & rest & -> & He)].
  - cbn [tl scan]. rewrite !bind_assoc. apply emit_bind. now rewrite !bind_ret_l.
  - rewrite He. cbn [tl]. change (String.eqb "" "") with true. cbv iota.
    rewrite !bind_assoc. apply emit_bind.
    rewrite scan_out. rewrite !bind_assoc. apply bind_ext. intros after.
    rewrite !bind_ret_l. now rewrite <- app_assoc.
Qed.

Lemma C3_witness :
  @processPlaylistContent offline
    ("#EXTM3U" ++ NL ++ "#EXT-X-STREAM-INF:BANDWIDTH=100" ++ NL ++ "  " ++ NL ++ "seg001.ts")
    PLAYLIST_URL REFERER
  = ([MISSING_URI],
     inr ("#EXTM3U" ++ NL ++ "#EXT-X-STREAM-INF:BANDWIDTH=100" ++ NL ++
          "/segment?url=https%3A%2F%2Fcdn.example.com%2Flive%2Fseg001.ts&ref=https%3A%2F%2Fsite.example.com%2F")).
Proof.
  rewrite (@C3_missing_uri_is_skipped offline _ PLAYLIST_URL REFERER
             ["#EXTM3U"] "#EXT-X-STREAM-INF:BANDWIDTH=100" ["  "; "seg001.ts"]);
    [vm_compute; reflexivity | vm_compute; reflexivity | reflexivity | reflexivity |].
  right. exists "  ", ["seg001.ts"]. split; reflexivity.
Defined.

(** Every playlist with two [#EXT-X-STREAM-INF] lines in a row has such a
    pair whose first line the scan reads as its current line: the first
    two lines of the first run of tag lines. *)
Lemma consecutive_tags_reached_le (n : nat) :
  forall lines : list string, (List.length lines <= n)%nat ->
  (exists pre t1 t2 rest,
     lines = (pre ++ t1 :: t2 :: rest)%list /\ isTag t1 = true /\ isTag t2 = true) ->
  exists pre t1 t2 rest,
    lines = (pre ++ t1 :: t2 :: rest)%list /\ isTag t1 = true /\ isTag t2 = true
    /\ awaitsURI pre = false.
Proof.
  induction n as [| n IH]; intros lines Hl (pre & t1 & t2 & rest & -> & H1 & H2).
  - rewrite length_app in Hl. simpl in Hl. lia.
  - destruct pre as [| a pre].
    + exists [], t1, t2, rest. auto.
    + destruct (isTag a) eqn:Ha.
      * destruct pre as [| b pre].
        -- exists [], a, t1, (t2 :: rest). auto.
        -- destruct (isTag b) eqn:Hb.
           ++ exists [], a, b, (pre ++ t1 :: t2 :: rest)%list. auto.
           ++ destruct (IH (pre ++ t1 :: t2 :: rest)%list) as (p & u1 & u2 & r & E & G1 & G2 & W).
              { simpl in Hl. lia. }
              { exists pre, t1, t2, rest. auto. }
              exists (a :: b :: p), u1, u2, r. repeat split; auto.
              ** cbn [app]. now rewrite E.
              ** cbn [awaitsURI]. now rewrite Ha.
      * destruct (IH (pre ++ t1 :: t2 :: rest)%list) as (p & u1 & u2 & r & E & G1 & G2 & W).
        { simpl in Hl. lia. }
        { exists pre, t1, t2, rest. auto. }
        exists (a :: p), u1, u2, r. repeat split; auto.
        -- cbn [app]. now rewrite E.
        -- cbn [awaitsURI]. now rewrite Ha.
Qed.

Lemma consecutive_tags_reached (lines : list string) :
  (exists pre t1 t2 rest,
     lines = (pre ++ t1 :: t2 :: rest)%list /\ isTag t1 = true /\ isTag t2 = true) ->
  exists pre t1 t2 rest,
    lines = (pre ++ t1 :: t2 :: rest)%list /\ isTag t1 = true /\ isTag t2 = true
    /\ awaitsURI pre = false.
Proof. now apply (consecutive_tags_reached_le (List.length lines)). Qed.

(** C4, as stated, fails: of three [#EXT-X-STREAM-INF] lines in a row the
    second and the third are two consecutive tag lines with nothing
    between them, but the scan has taken the second as the URI of the
    first, so it stands on the third and takes the line after the pair,
    [low.m3u8], as the third's URI.  On its own that line is rewritten to
    a [/segment] reference; after the pair it is rewritten to a
    [/player/stream] reference.  The equation of the amended statement,
    taken without its condition on the lines before the pair, is false
    here. *)
Lemma C4_counterexample :
  let tagA := "#EXT-X-STREAM-INF:A" in
  let tagB := "#EXT-X-STREAM-INF:B" in
  let tagC := "#EXT-X-STREAM-INF:C" in
  let playlistText := tagA ++ NL ++ tagB ++ NL ++ tagC ++ NL ++ "low.m3u8" in
  let base := "https://cdn.example.com/live/" in
  JS.splitLines playlistText = ([tagA] ++ tagB :: tagC :: ["low.m3u8"])%list
  /\ isTag tagB = true
  /\ isTag tagC = true
  /\ awaitsURI [tagA] = true
  /\ @resolve offline "." PLAYLIST_URL = ret base
  /\ @rewriteLines offline base REFERER ["low.m3u8"]
     = ret [segmentRef "https://cdn.example.com/live/low.m3u8" REFERER]
  /\ (exists out,
        @processPlaylistContent offline playlistText PLAYLIST_URL REFERER = ret out
        /\ JS.splitLines out =
           [ tagA;
             "/player/stream?url=https%3A%2F%2Fcdn.example.com%2Flive%2F%23EXT-X-STREAM-INF%3AB&ref=https%3A%2F%2Fsite.example.com%2F";
             tagC;
             "/player/stream?url=https%3A%2F%2Fcdn.example.com%2Flive%2Flow.m3u8&ref=https%3A%2F%2Fsite.example.com%2F" ]
        /\ ~ In (segmentRef "https://cdn.example.com/live/low.m3u8" REFERER)
               (JS.splitLines out))
  /\ @processPlaylistContent offline playlistText PLAYLIST_URL REFERER
     <> (base <- @resolve offline "." PLAYLIST_URL ;;
         before <- @rewriteLines offline base REFERER [tagA] ;;
         abs <- @resolve offline (JS.trim tagC) base ;;
         after <- @rewriteLines offline base REFERER ["low.m3u8"] ;;
         ret (JS.join NL (before ++ [JS.trim tagB; streamRef abs REFERER] ++ after)%list)).
Proof.
  intros tagA tagB tagC playlistText base.
  split; [vm_compute; reflexivity |]. split; [vm_compute; reflexivity |].
  split; [vm_compute; reflexivity |]. split; [vm_compute; reflexivity |].
  split; [vm_compute; reflexivity |]. split; [vm_compute; reflexivity |].
  split.
  - exists (tagA ++ NL ++
            "/player/stream?url=https%3A%2F%2Fcdn.example.com%2Flive%2F%23EXT-X-STREAM-INF%3AB&ref=https%3A%2F%2Fsite.example.com%2F"
            ++ NL ++ tagC ++ NL ++
            "/player/stream?url=https%3A%2F%2Fcdn.example.com%2Flive%2Flow.m3u8&ref=https%3A%2F%2Fsite.example.com%2F").
    split; [vm_compute; reflexivity |]. split; [vm_compute; reflexivity |].
    vm_compute. intros [H | [H | [H | [H | []]]]]; discriminate H.
  - vm_compute. intros H. discriminate H.
Qed.

(** C4, amended.  Let two [#EXT-X-STREAM-INF] lines stand in a row, the
    first of them read by the scan as its current line (it is not itself
    taken as the URI of a tag line just before it; every playlist with two
    tag lines in a row has such a pair, see [consecutive_tags_reached]).
    Then the first is emitted, the second is taken as its URI (one
    reference line is emitted for it), and the scan resumes on the line
    after the second: that line is not read again, and the lines after the
    pair are rewritten exactly as they would be on their own. *)
Theorem C4_consecutive_tags_resume {host : Host}
    (playlistText m3u8Url refUrl : string) (pre : list string) (t1 t2 : string)
    (rest : list string) :
  JS.splitLines playlistText = (pre ++ t1 :: t2 :: rest)%list ->
  awaitsURI pre = false ->
  isTag t1 = true ->
  isTag t2 = true ->
  processPlaylistContent playlistText m3u8Url refUrl =
  (base <- resolve "." m3u8Url ;;
   before <- rewriteLines base refUrl pre ;;
   abs <- resolve (JS.trim t2) base ;;
   after <- rewriteLines base refUrl rest ;;
   ret (JS.join NL (before ++ [JS.trim t1; streamRef abs refUrl] ++ after)%list)).
Proof.
  intros Hs Hw H1 H2.
  rewrite processPlaylistContent_scan, Hs.
  apply bind_ext. intros base.
  rewrite scan_app by assumption. rewrite !rewriteLines_scan.
  rewrite !bind_assoc. apply bind_ext. intros before.
  cbn [scan]. unfold isTag in H1, H2. rewrite H1.
  assert (Hne : String.eqb (JS.trim t2) "" = false).
  { destruct (JS.trim t2); [discriminate H2 | reflexivity]. }
  rewrite Hne. rewrite !bind_assoc. apply bind_ext. intros abs.
  rewrite scan_out. rewrite !bind_assoc. apply bind_ext. intros after.
  rewrite !bind_ret_l. now rewrite <- !app_assoc.
Qed.

Lemma C4_witness :
  @processPlaylistContent offline
    ("#EXTM3U" ++ NL ++ "#EXT-X-STREAM-INF:A" ++ NL ++ "#EXT-X-STREAM-INF:B" ++ NL ++ "low.m3u8")
    PLAYLIST_URL REFERER
  = ret ("#EXTM3U" ++ NL ++ "#EXT-X-STREAM-INF:A" ++ NL ++
         "/player/stream?url=https%3A%2F%2Fcdn.example.com%2Flive%2F%23EXT-X-STREAM-INF%3AB&ref=https%3A%2F%2Fsite.example.com%2F"
         ++ NL ++
         "/segment?url=https%3A%2F%2Fcdn.example.com%2Flive%2Flow.m3u8&ref=https%3A%2F%2Fsite.example.com%2F").
Proof.
  rewrite (@C4_consecutive_tags_resume offline _ PLAYLIST_URL REFERER
             ["#EXTM3U"] "#EXT-X-STREAM-INF:A" "#EXT-X-STREAM-INF:B" ["low.m3u8"]);
    vm_compute; reflexivity.
Defined.

End Playlist.

(** ** The HTTP client: claims C5 to C7 *)

Module Client.
Import HttpClient.

(** The builder of [src/utils/httpClient.js] called with both arguments,
    as [fetchWithProxy] calls it: for a referer and a target that the
    [URL] constructor accepts it returns an object in which [Referer] is
    the referer as given, [Origin] is the [origin] of the referer URL,
    [Host] is the [hostname] of the target URL, and the three
    fetch-metadata hints have their fixed values. *)
Lemma two_argument_builder_headers {host : Host} (refUrl targetUrl : string) (r t : URL) :
  new_URL refUrl None = inr r ->
  new_URL targetUrl None = inr t ->
  exists h : Obj,
    createProxyHeaders refUrl (Some targetUrl) = ret h
    /\ Obj_get h "Referer" = Some refUrl
    /\ Obj_get h "Origin" = Some (origin r)
    /\ Obj_get h "Host" = Some (hostname t)
    /\ Obj_get h "Sec-Fetch-Dest" = Some "empty"
    /\ Obj_get h "Sec-Fetch-Mode" = Some "cors"
    /\ Obj_get h "Sec-Fetch-Site" = Some "cross-site".
Proof.
  intros Hr Ht. unfold createProxyHeaders. cbn [toStr]. rewrite Hr, Ht.
  eexists. split; [reflexivity |]. repeat split.
Qed.

Lemma two_argument_builder_example :
  exists h : Obj,
    @createProxyHeaders offline "https://site.example.com/watch?v=1"
      (Some "https://cdn.example.com/live/index.m3u8") = ret h
    /\ Obj_get h "Referer" = Some "https://site.example.com/watch?v=1"
    /\ Obj_get h "Origin" = Some "https://site.example.com"
    /\ Obj_get h "Host" = Some "cdn.example.com"
    /\ Obj_get h "Sec-Fetch-Dest" = Some "empty"
    /\ Obj_get h "Sec-Fetch-Mode" = Some "cors"
    /\ Obj_get h "Sec-Fetch-Site" = Some "cross-site".
Proof.
  apply (@two_argument_builder_headers offline
           "https://site.example.com/watch?v=1" "https://cdn.example.com/live/index.m3u8"
           (mkURL "https://site.example.com/watch?v=1" "https://site.example.com"
                  "site.example.com" "/watch" [("v", "1")])
           (mkURL "https://cdn.example.com/live/index.m3u8" "https://cdn.example.com"
                  "cdn.example.com" "/live/index.m3u8" []));
    vm_compute; reflexivity.
Defined.

(** The handlers call the builder with the referer only; the target is
    then [undefined], which the reference host does not parse, and the call
    throws before any request is made. *)
Remark one_argument_call_throws :
  @createProxyHeaders offline "https://site.example.com/" None = throw (mkError "TypeError" "Invalid URL").
Proof. vm_compute. reflexivity. Qed.

(** For any host: called with the referer only, the builder of
    [src/utils/httpClient.js] throws what the [URL] constructor throws on
    [undefined], and the earlier one-argument copy returns the full referer
    URL as [Origin] and no [Host]. *)
Lemma one_argument_builders {host : Host} (refUrl : string) (r : URL) (e : Error) :
  new_URL refUrl None = inr r ->
  new_URL "undefined" None = inl e ->
  createProxyHeaders refUrl None = throw e
  /\ exists h,
       HttpClientEarlier.createProxyHeaders refUrl = ret h
       /\ Obj_get h "Referer" = Some refUrl
       /\ Obj_get h "Origin" = Some refUrl
       /\ Obj_get h "Host" = None.
Proof.
  intros Hr He. unfold createProxyHeaders, HttpClientEarlier.createProxyHeaders.
  cbn [toStr]. rewrite Hr, He. split; [reflexivity |].
  eexists. split; [reflexivity |]. repeat split.
Qed.

(** C5: the proxy flows do not build the header map of the claim.  Both
    handlers call [createProxyHeaders(refUrl)], with the referer only.
    Linked with [src/utils/httpClient.js], whose builder takes the target
    as its second argument, the target is [undefined]: the [URL]
    constructor rejects it, the builder throws, and a request whose [url]
    and [ref] are well-formed absolute URLs is answered 500 after the
    handler's log line and the error's, with nothing sent upstream, on
    [/player/stream] and on [/segment] alike, although the network would
    answer.  The earlier copy of the builder, kept beside the playlist
    handler and taking the referer only, returns the full referer URL as
    [Origin] and no [Host].  The map of the claim, with the referer's
    origin as [Origin] and the target's host name as [Host], comes only
    from the two-argument call, which no proxy flow makes. *)
Theorem C5_flows_do_not_build_claimed_headers :
  let refUrl := "https://site.example.com/watch?v=1" in
  let target := "https://cdn.example.com/live/index.m3u8" in
  let query :=
    "?url=https%3A%2F%2Fcdn.example.com%2Flive%2Findex.m3u8&ref=https%3A%2F%2Fsite.example.com%2Fwatch%3Fv%3D1" in
  let playlist := mkRequest "GET" ("https://worker.example.com/player/stream" ++ query) in
  let segment := mkRequest "GET" ("https://worker.example.com/segment" ++ query) in
  let host := webHost (answering (mkResponse 200 "OK" [] (Some "#EXTM3U"))) CLOCK in
  let answer operation :=
    new_Response
      (Some (Json.stringify
               (JObject [ ("error", JString ("Failed to " ++ operation));
                          ("message", JString "Invalid URL");
                          ("status", JNumber 500);
                          ("timestamp", JString CLOCK) ])))
      (Some 500%Z)
      [ ("Content-Type", "application/json");
        ("Access-Control-Allow-Origin", "*") ] in
  @createProxyHeaders host refUrl (Some target)
  = ret [ ("Referer", refUrl);
          ("Origin", "https://site.example.com");
          ("Host", "cdn.example.com");
          ("Sec-Fetch-Dest", "empty");
          ("Sec-Fetch-Mode", "cors");
          ("Sec-Fetch-Site", "cross-site") ]
  /\ @createProxyHeaders host refUrl None = throw (mkError "TypeError" "Invalid URL")
  /\ @Index.fetch host playlist
     = ([ ConsoleLog ("Fetching playlist: " ++ target ++ " (ref: " ++ refUrl ++ ")");
          ConsoleLog "Error in proxy M3U8 playlist: TypeError: Invalid URL" ],
        inr (answer "proxy M3U8 playlist"))
  /\ @Index.fetch host segment
     = ([ ConsoleLog ("Fetching segment: " ++ target ++ " (ref: " ++ refUrl ++ ")");
          ConsoleLog "Error in fetch video segment: TypeError: Invalid URL" ],
        inr (answer "fetch video segment"))
  /\ @HttpClientEarlier.createProxyHeaders host refUrl
     = ret [ ("Referer", refUrl);
             ("Origin", refUrl);
             ("Authority", "site.example.com") ].
Proof.
  intros refUrl target query playlist segment host answer.
  repeat split; vm_compute; reflexivity.
Qed.

(** What the statuses of the claim map to with their usual reason
    phrases, and a timeout. *)
Example usual_errors_map_as_claimed :
  map statusCodeOf
    [ mkError "AbortError" "The operation was aborted";
      upstreamError (mkResponse 403 "Forbidden" [] None);
      upstreamError (mkResponse 404 "Not Found" [] None);
      upstreamError (mkResponse 429 "Too Many Requests" [] None);
      upstreamError (mkResponse 502 "Bad Gateway" [] None);
      upstreamError (mkResponse 503 "Service Unavailable" [] None);
      upstreamError (mkResponse 500 "Internal Server Error" [] None);
      upstreamError (mkResponse 410 "Gone" [] None);
      mkError "TypeError" "Network connection lost" ]
  = [408; 403; 404; 429; 502; 502; 500; 500; 500]%Z.
Proof. vm_compute. reflexivity. Qed.

(** An aborted request is answered with 408 whatever its message. *)
Lemma abort_is_408 (error : Error) :
  name error = "AbortError" -> statusCodeOf error = 408%Z.
Proof. intros E. unfold statusCodeOf. now rewrite E. Qed.

(** The response carries the status it is sent with, and the error's
    message, in its body. *)
Lemma error_response_fields {host : Host} (error : Error) (operation : string) :
  exists resp,
    outcome (createHttpErrorResponse error operation) = inr resp
    /\ status resp = statusCodeOf error
    /\ body resp =
       Some (Json.stringify
               (JObject [ ("error", JString ("Failed to " ++ operation));
                          ("message", JString (message error));
                          ("status", JNumber (statusCodeOf error));
                          ("timestamp", JString Date_toISOString) ])).
Proof. eexists. split; [reflexivity |]. split; reflexivity. Qed.

(** C6: the status is read off the text of the error message, status text
    included.  An upstream answer 500 whose status text is
    [upstream said HTTP 404] is turned down by [fetchWithConfig] with the
    message [HTTP 500: upstream said HTTP 404], and the handler's catch
    answers it with 404, where the claim has 500. *)
Theorem C6_status_text_decides_status :
  let upstream := mkResponse 500 "upstream said HTTP 404" [] None in
  let host := webHost (answering upstream) CLOCK in
  outcome (@fetchWithConfig host "https://cdn.example.com/seg001.ts" None None)
  = inl (mkError "Error" "HTTP 500: upstream said HTTP 404")
  /\ exists resp,
       outcome (try_catch (@fetchWithConfig host "https://cdn.example.com/seg001.ts" None None)
                  (fun err => @createHttpErrorResponse host err "fetch video segment"))
       = inr resp
       /\ status resp = 404%Z
       /\ body resp =
          Some (Json.stringify
                  (JObject [ ("error", JString "Failed to fetch video segment");
                             ("message", JString "HTTP 500: upstream said HTTP 404");
                             ("status", JNumber 404);
                             ("timestamp", JString CLOCK) ])).
Proof.
  split; [vm_compute; reflexivity |].
  eexists. split; [vm_compute; reflexivity |]. split; vm_compute; reflexivity.
Qed.

(** C7.  When the outbound request completes with a response, the client
    makes that one request and returns the response exactly when its status
    lies in [200, 400); for any other status it throws an error whose
    message carries the status code and the status text. *)
Theorem C7_status_band {host : Host} (target : string) (options_headers : option Obj)
    (timeout : option Z) (response : Response) :
  fetch target (requestHeaders options_headers) (timeoutOr timeout) = inr response ->
  trace (fetchWithConfig target options_headers timeout)
  = [Fetched target (requestHeaders options_headers)]
  /\ ((200 <= status response < 400)%Z ->
      outcome (fetchWithConfig target options_headers timeout) = inr response)
  /\ (~ (200 <= status response < 400)%Z ->
      outcome (fetchWithConfig target options_headers timeout)
      = inl (mkError "Error"
               ("HTTP " ++ JS.showZ (status response) ++ ": " ++ statusText response))).
Proof.
  intros Hf. unfold fetchWithConfig, trace, outcome.
  cbn [emit bind lift try_catch]. rewrite Hf. cbn [bind].
  destruct (status response <? 200)%Z eqn:Hlo; destruct (status response >=? 400)%Z eqn:Hhi;
    cbn; repeat split; intros; try reflexivity; exfalso; lia.
Qed.

Lemma C7_witness :
  let host := webHost (answering (mkResponse 404 "Not Found" [] None)) CLOCK in
  trace (@fetchWithConfig host "https://cdn.example.com/seg001.ts" None None)
  = [Fetched "https://cdn.example.com/seg001.ts" (requestHeaders None)]
  /\ ((200 <= 404 < 400)%Z ->
      outcome (@fetchWithConfig host "https://cdn.example.com/seg001.ts" None None)
      = inr (mkResponse 404 "Not Found" [] None))
  /\ (~ (200 <= 404 < 400)%Z ->
      outcome (@fetchWithConfig host "https://cdn.example.com/seg001.ts" None None)
      = inl (mkError "Error" ("HTTP " ++ JS.showZ 404 ++ ": " ++ "Not Found"))).
Proof.
  intro host.
  apply (@C7_status_band host "https://cdn.example.com/seg001.ts" None None
           (mkResponse 404 "Not Found" [] None)).
  reflexivity.
Defined.

End Client.

(** ** The handlers: claim C8 *)

Module Handlers.
Import UrlUtils.

(** [validateQueryParams] collects every required parameter that is
    absent or empty, in the order of [requiredParams]. *)
Lemma validate_missing_from (sp : list (string * string)) (requiredParams : list string) :
  forall st,
    snd (fold_left (validateStep sp) requiredParams st)
    = (snd st ++ absentParams sp requiredParams)%list.
Proof.
  induction requiredParams as [| param tl IH]; intros st; cbn [fold_left absentParams filter].
  - now rewrite app_nil_r.
  - rewrite IH. unfold validateStep.
    destruct (falsy (searchParams_get sp param)); cbn [fst snd].
    + now rewrite <- app_assoc.
    + reflexivity.
Qed.

Lemma validate_missing (sp : list (string * string)) (requiredParams : list string) :
  missing (validateQueryParams sp requiredParams) = absentParams sp requiredParams.
Proof. unfold validateQueryParams. cbn [missing]. now rewrite validate_missing_from. Qed.

Lemma validate_isValid (sp : list (string * string)) (requiredParams : list string) :
  isValid (validateQueryParams sp requiredParams)
  = match absentParams sp requiredParams with [] => true | _ => false end.
Proof.
  unfold validateQueryParams. cbn [isValid]. rewrite validate_missing_from. cbn [snd app].
  now destruct (absentParams sp requiredParams).
Qed.

(** C8.  When [url] or [ref] is absent or empty in the query, either
    handler logs the missing names and returns a 400 response and nothing
    else happens: no request is sent.  The [error] text of the body names
    every absent or empty parameter, joined by a comma, and [required]
    lists them in the order checked, [url] before [ref]. *)
Theorem C8_missing_params_400 {host : Host} (request : Request) (url : URL) :
  let missingParams := absentParams (searchParams url) ["url"; "ref"] in
  falsy (searchParams_get (searchParams url) "url") = true
  \/ falsy (searchParams_get (searchParams url) "ref") = true ->
  (exists resp line,
     M3u8Handler.proxyM3U8 request url = ([ConsoleError line], inr resp)
     /\ status resp = 400%Z
     /\ body resp = Some (paramErrorBody missingParams))
  /\ (exists resp line,
        SegmentHandler.proxySegment request url = ([ConsoleError line], inr resp)
        /\ status resp = 400%Z
        /\ body resp = Some (paramErrorBody missingParams))
  /\ existsb is_fetch (trace (M3u8Handler.proxyM3U8 request url)) = false
  /\ existsb is_fetch (trace (SegmentHandler.proxySegment request url)) = false
  /\ missingParams <> [].
Proof.
  intros missingParams H.
  assert (Hv : isValid (validateQueryParams (searchParams url) ["url"; "ref"]) = false
               /\ missingParams <> []).
  { rewrite validate_isValid. fold missingParams. subst missingParams.
    unfold absentParams. cbn [filter].
    destruct H as [H | H]; rewrite H.
    - split; [reflexivity | discriminate].
    - destruct (falsy (searchParams_get (searchParams url) "url")); split;
        try reflexivity; discriminate. }
  destruct Hv as [Hv Hne].
  unfold M3u8Handler.proxyM3U8, SegmentHandler.proxySegment.
  rewrite Hv. cbn [negb]. rewrite validate_missing. fold missingParams.
  cbn [emit bind ret try_catch app trace fst existsb is_fetch orb].
  repeat split; try assumption; do 2 eexists; repeat split.
Qed.

Lemma C8_witness :
  let url := mkURL "https://worker.example.com/segment?ref=" "https://worker.example.com"
               "worker.example.com" "/segment" [("ref", "")] in
  let request := mkRequest "GET" "https://worker.example.com/segment?ref=" in
  (exists resp line,
     @M3u8Handler.proxyM3U8 offline request url = ([ConsoleError line], inr resp)
     /\ status resp = 400%Z
     /\ body resp = Some (paramErrorBody ["url"; "ref"]))
  /\ (exists resp line,
        @SegmentHandler.proxySegment offline request url = ([ConsoleError line], inr resp)
        /\ status resp = 400%Z
        /\ body resp = Some (paramErrorBody ["url"; "ref"]))
  /\ existsb is_fetch (trace (@M3u8Handler.proxyM3U8 offline request url)) = false
  /\ existsb is_fetch (trace (@SegmentHandler.proxySegment offline request url)) = false
  /\ ["url"; "ref"] <> [].
Proof.
  intros url request.
  apply (@C8_missing_params_400 offline request url).
  left. reflexivity.
Defined.

Example param_error_body_text :
  paramErrorBody ["url"; "ref"]
  = "{" ++ String (ascii_of_N 34) "error" ++ String (ascii_of_N 34) ":"
    ++ String (ascii_of_N 34) "Missing required query parameters: url, ref"
    ++ String (ascii_of_N 34) "," ++ String (ascii_of_N 34) "required"
    ++ String (ascii_of_N 34) ":[" ++ String (ascii_of_N 34) "url"
    ++ String (ascii_of_N 34) "," ++ String (ascii_of_N 34) "ref"
    ++ String (ascii_of_N 34) "]}".
Proof. vm_compute. reflexivity. Qed.

End Handlers.

(** ** The router: claim C9 *)

Module Router.
Import Cors.

(** No JSON value is written as the bare words [Method not allowed]: the
    text of a value opens with a quote, a digit, a minus sign, a bracket or
    a brace. *)
Lemma not_json_text (j : JSON) : Json.stringify j <> "Method not allowed".
Proof.
  destruct j as [s | z | xs | fields]; cbn [Json.stringify].
  - unfold Json.quote. discriminate.
  - unfold JS.showZ, NilZero.string_of_int.
    destruct (Z.to_int z) as [d | d]; [| discriminate].
    unfold NilZero.string_of_uint. destruct d; discriminate.
  - discriminate.
  - discriminate.
Qed.

(** A preflight request is answered by [handleOptions] whatever its path:
    status 204, no body, the CORS header set. *)
Lemma options_is_preflight {host : Host} (request : Request) (u : URL) :
  new_URL (req_url request) None = inr u ->
  req_method request = "OPTIONS" ->
  Index.fetch request = ret handleOptions
  /\ status handleOptions = 204%Z
  /\ body handleOptions = None
  /\ headers handleOptions
     = [ ("access-control-allow-origin", "*");
         ("access-control-allow-methods", "GET, OPTIONS");
         ("access-control-allow-headers", "Content-Type");
         ("access-control-max-age", "86400") ].
Proof.
  intros Hu Hm. unfold Index.fetch. rewrite Hu, Hm.
  repeat split.
Qed.

(** Any method other than GET and OPTIONS is answered with 405 under the
    content type [application/json], with the text [Method not allowed]
    as the body. *)
Lemma other_method_is_405 {host : Host} (request : Request) (u : URL) :
  new_URL (req_url request) None = inr u ->
  req_method request <> "OPTIONS" ->
  req_method request <> "GET" ->
  exists resp,
    Index.fetch request = ret resp
    /\ status resp = 405%Z
    /\ Headers_get (headers resp) "Content-Type" = Some "application/json"
    /\ body resp = Some "Method not allowed".
Proof.
  intros Hu Ho Hg. unfold Index.fetch. rewrite Hu.
  apply String.eqb_neq in Ho, Hg. cbn [lift bind]. rewrite Ho, Hg.
  eexists. repeat split.
Qed.

(** C9: a POST is answered with 405 and the content type
    [application/json], but the body is the bare text
    [Method not allowed], which is not the text of any JSON value; the
    not-found answer of the same router serialises an object. *)
Theorem C9_method_not_allowed_body_is_not_json :
  let request := mkRequest "POST" "https://worker.example.com/segment" in
  exists resp,
    @Index.fetch offline request = ret resp
    /\ status resp = 405%Z
    /\ Headers_get (headers resp) "Content-Type" = Some "application/json"
    /\ body resp = Some "Method not allowed"
    /\ (forall j : JSON, body resp <> Some (Json.stringify j)).
Proof.
  eexists. split; [vm_compute; reflexivity |].
  repeat split.
  intros j E. cbn [body new_Response] in E. injection E as E.
  now apply (not_json_text j).
Qed.

End Router.

(** ** The segment handler: claim C10 *)

Module Segment.
Import SegmentHandler.

Lemma length_append (a b : string) :
  String.length (a ++ b) = (String.length a + String.length b)%nat.
Proof. induction a as [| c a IH]; simpl; [reflexivity | now rewrite IH]. Qed.

Lemma substring_whole (p : string) : String.substring 0 (String.length p) p = p.
Proof. induction p as [| c p IH]; simpl; [reflexivity | now rewrite IH]. Qed.

Lemma substring_skip (q p : string) :
  String.substring (String.length q) (String.length p) (q ++ p) = p.
Proof. induction q as [| c q IH]; simpl; [apply substring_whole | exact IH]. Qed.

Lemma substring_split (s : string) :
  forall k, (k <= String.length s)%nat ->
  s = String.substring 0 k s ++ String.substring k (String.length s - k) s.
Proof.
  induction s as [| c s IH]; intros k Hk.
  - simpl in Hk. now replace k with 0%nat by lia.
  - destruct k as [| k].
    + cbn [String.substring append String.length Nat.sub].
      now rewrite substring_whole.
    + simpl in Hk. cbn [String.substring append String.length Nat.sub].
      f_equal. apply IH. lia.
Qed.

(** [s.endsWith(p)] holds exactly when [s] is some text followed by [p]. *)
Lemma endsWith_spec (s p : string) :
  JS.endsWith s p = true <-> exists q, s = q ++ p.
Proof.
  unfold JS.endsWith. split.
  - intros H. apply andb_prop in H as [Hle He].
    apply Nat.leb_le in Hle. apply String.eqb_eq in He.
    exists (String.substring 0 (String.length s - String.length p) s).
    pose proof (substring_split s (String.length s - String.length p) ltac:(lia)) as Hs.
    replace (String.length s - (String.length s - String.length p))%nat
      with (String.length p) in Hs by lia.
    now rewrite He in Hs.
  - intros [q ->]. rewrite length_append.
    replace (String.length q + String.length p - String.length p)%nat
      with (String.length q) by lia.
    rewrite substring_skip, String.eqb_refl, andb_true_r.
    apply Nat.leb_le. lia.
Qed.

(** Of two endings of one text, the shorter ends the longer. *)
Lemma endings_nest (q1 q2 a b : string) :
  q1 ++ a = q2 ++ b -> (String.length a <= String.length b)%nat ->
  exists c, b = c ++ a.
Proof.
  revert q1. induction q2 as [| x q2 IH]; intros q1 E Hl.
  - exists q1. now rewrite E.
  - destruct q1 as [| y q1].
    + simpl in E. subst a. simpl in Hl. rewrite length_append in Hl. lia.
    + simpl in E. injection E as _ E. now apply (IH q1).
Qed.

(** An ending that is too long or differs in a character is ruled out by
    peeling the front character by character. *)
Ltac peel c Hc :=
  do 7 (try (destruct c as [| ? c]; simpl in Hc; try discriminate Hc)).

Lemma ts_excludes_m4s (s : string) :
  JS.endsWith s ".ts" = true -> JS.endsWith s ".m4s" = false.
Proof.
  intros H. destruct (JS.endsWith s ".m4s") eqn:E; [| reflexivity].
  apply endsWith_spec in H as [q1 H1]. apply endsWith_spec in E as [q2 H2].
  rewrite H1 in H2.
  destruct (endings_nest q1 q2 ".ts" ".m4s" H2) as [c Hc]; [simpl; lia |].
  peel c Hc.
Qed.

Lemma ts_excludes_webm (s : string) :
  JS.endsWith s ".ts" = true -> JS.endsWith s ".webm" = false.
Proof.
  intros H. destruct (JS.endsWith s ".webm") eqn:E; [| reflexivity].
  apply endsWith_spec in H as [q1 H1]. apply endsWith_spec in E as [q2 H2].
  rewrite H1 in H2.
  destruct (endings_nest q1 q2 ".ts" ".webm" H2) as [c Hc]; [simpl; lia |].
  peel c Hc.
Qed.

Lemma m4s_excludes_webm (s : string) :
  JS.endsWith s ".m4s" = true -> JS.endsWith s ".webm" = false.
Proof.
  intros H. destruct (JS.endsWith s ".webm") eqn:E; [| reflexivity].
  apply endsWith_spec in H as [q1 H1]. apply endsWith_spec in E as [q2 H2].
  rewrite H1 in H2.
  destruct (endings_nest q1 q2 ".m4s" ".webm" H2) as [c Hc]; [simpl; lia |].
  peel c Hc.
Qed.

(** C10, as stated, fails: an upstream [content-type] header that is
    present with an empty value is passed over, and the type is taken from
    the ending of the URL. *)
Lemma C10_counterexample :
  let response := mkResponse 200 "OK" [("content-type", "")] (Some "") in
  Headers_get (headers response) "content-type" = Some ""
  /\ determineContentType response "https://cdn.example.com/seg001.ts" = "video/MP2T"
  /\ determineContentType response "https://cdn.example.com/seg001.ts" <> "".
Proof. repeat split. discriminate. Qed.

(** C10, amended.  The content type is the upstream [content-type]
    header when that header is present and not empty.  When it is absent or
    empty, the type is [video/MP2T], [video/mp4] or [video/webm] exactly
    when the whole segment URL string, query string included, ends with
    [.ts], [.m4s] or [.webm], and [application/octet-stream] exactly when it
    ends with none of them. *)
Theorem C10_content_type (response : Response) (segmentUrl : string) :
  let header := Headers_get (headers response) "content-type" in
  let contentType := determineContentType response segmentUrl in
  (forall v, header = Some v -> v <> "" -> contentType = v)
  /\ (header = None \/ header = Some "" ->
      (contentType = "video/MP2T" <-> exists q, segmentUrl = q ++ ".ts")
      /\ (contentType = "video/mp4" <-> exists q, segmentUrl = q ++ ".m4s")
      /\ (contentType = "video/webm" <-> exists q, segmentUrl = q ++ ".webm")
      /\ (contentType = "application/octet-stream" <->
          ~ (exists q, segmentUrl = q ++ ".ts")
          /\ ~ (exists q, segmentUrl = q ++ ".m4s")
          /\ ~ (exists q, segmentUrl = q ++ ".webm"))).
Proof.
  intros header contentType. subst contentType. unfold determineContentType.
  fold header. split.
  - intros v -> Hv. cbn [falsy toStr]. apply String.eqb_neq in Hv. now rewrite Hv.
  - intros Hh.
    assert (Hf : falsy header = true) by (destruct Hh as [-> | ->]; reflexivity).
    rewrite Hf. cbn [negb]. clear Hh Hf.
    rewrite <- !endsWith_spec.
    destruct (JS.endsWith segmentUrl ".ts") eqn:Ets.
    + rewrite (ts_excludes_m4s _ Ets), (ts_excludes_webm _ Ets).
      repeat split; try discriminate; try reflexivity; intros; try discriminate.
      destruct H as (H & _). now elim H.
    + destruct (JS.endsWith segmentUrl ".m4s") eqn:Em4s.
      * rewrite (m4s_excludes_webm _ Em4s).
        repeat split; try discriminate; try reflexivity; intros; try discriminate.
        destruct H as (_ & H & _). now elim H.
      * destruct (JS.endsWith segmentUrl ".webm") eqn:Ewebm.
        -- repeat split; try discriminate; try reflexivity; intros; try discriminate.
           destruct H as (_ & _ & H). now elim H.
        -- repeat split; try discriminate; try reflexivity; intros; discriminate.
Qed.

Lemma C10_witness :
  determineContentType (mkResponse 200 "OK" [("content-type", "video/mp4")] (Some ""))
    "https://cdn.example.com/seg001.ts" = "video/mp4"
  /\ determineContentType (mkResponse 200 "OK" [] (Some ""))
       "https://cdn.example.com/seg001.ts" = "video/MP2T"
  /\ determineContentType (mkResponse 200 "OK" [] (Some ""))
       "https://cdn.example.com/seg001.ts?token=x" = "application/octet-stream".
Proof.
  split; [| split].
  - apply (proj1 (C10_content_type
                    (mkResponse 200 "OK" [("content-type", "video/mp4")] (Some ""))
                    "https://cdn.example.com/seg001.ts") "video/mp4");
      [reflexivity | discriminate].
  - apply (proj2 (C10_content_type (mkResponse 200 "OK" [] (Some ""))
                    "https://cdn.example.com/seg001.ts")); [left; reflexivity |].
    exists "https://cdn.example.com/seg001". reflexivity.
  - apply (proj2 (C10_content_type (mkResponse 200 "OK" [] (Some ""))
                    "https://cdn.example.com/seg001.ts?token=x")); [left; reflexivity |].
    repeat split; intros H; apply endsWith_spec in H; discriminate H.
Defined.

End Segment.

(** ** More on the effect monad *)

Lemma trace_emit_bind {B} (ev : Event) (k : unit -> M B) :
  trace (bind (emit ev) k) = ev :: trace (k tt).
Proof. unfold trace, bind, emit. now destruct (k tt). Qed.

Lemma outcome_emit_bind {B} (ev : Event) (k : unit -> M B) :
  outcome (bind (emit ev) k) = outcome (k tt).
Proof. unfold outcome, bind, emit. now destruct (k tt). Qed.

Lemma trace_ret {A} (a : A) : trace (ret a) = [].
Proof. reflexivity. Qed.

Lemma outcome_ret {A} (a : A) : outcome (ret a) = inr a.
Proof. reflexivity. Qed.

(** ** The playlist rewriter: what else the loop shows *)

Module PlaylistMore.
Import M3u8Handler Scan ScanFacts.

#[local] Arguments JS.trim : simpl never.
#[local] Arguments JS.startsWith : simpl never.
#[local] Arguments String.eqb : simpl never.

(** Resolving a reference logs nothing: it returns or throws. *)
Lemma resolve_cases {host : Host} (ref base : string) :
  (exists e, resolve ref base = throw e) \/ (exists abs, resolve ref base = ret abs).
Proof.
  unfold resolve, lift. destruct (new_URL ref (Some base)) as [e | u].
  - left. now exists e.
  - right. now exists (href u).
Qed.

Lemma pass_through_inv (raw : string) :
  isPassThrough raw = true ->
  JS.startsWith (JS.trim raw) STREAM_INF = false
  /\ negb (String.eqb (JS.trim raw) "") && negb (JS.startsWith (JS.trim raw) "#") = false.
Proof.
  unfold isPassThrough, isTag, isBareURI. intros H.
  apply andb_prop in H as [H1 H2].
  split; [now apply negb_true_iff in H1 | now apply negb_true_iff in H2].
Qed.

Lemma scan_pass_through {host : Host} (base refUrl : string) (lines : list string) :
  forallb isPassThrough lines = true ->
  forall out, scan base refUrl lines out = ret (out ++ map JS.trim lines)%list.
Proof.
  induction lines as [| raw tl IH]; intros H out; cbn [scan map].
  - now rewrite app_nil_r.
  - cbn [forallb] in H. apply andb_prop in H as [Hr Ht].
    destruct (pass_through_inv raw Hr) as [H1 H2]. rewrite H1, H2.
    rewrite (IH Ht). now rewrite <- app_assoc.
Qed.

(** X1.  A playlist that holds only blank lines and comment or tag lines
    other than [#EXT-X-STREAM-INF] is returned line by line, each line
    trimmed and the lines joined by line feeds: nothing is resolved against
    the base, nothing is logged, and the only failure left is that of the
    base itself. *)
Theorem comments_and_blanks_pass_through {host : Host}
    (playlistText m3u8Url refUrl : string) :
  forallb isPassThrough (JS.splitLines playlistText) = true ->
  processPlaylistContent playlistText m3u8Url refUrl =
  (base <- resolve "." m3u8Url ;;
   ret (JS.join NL (map JS.trim (JS.splitLines playlistText)))).
Proof.
  intros H. rewrite processPlaylistContent_scan.
  apply bind_ext. intros base.
  rewrite (scan_pass_through base refUrl _ H). now rewrite bind_ret_l.
Qed.

Lemma comments_and_blanks_witness :
  @processPlaylistContent offline
    ("#EXTM3U" ++ String JS.CR NL ++ "  #EXT-X-VERSION:3 " ++ NL ++ "" ++ NL ++ "#EXT-X-ENDLIST")
    PLAYLIST_URL REFERER
  = ret ("#EXTM3U" ++ NL ++ "#EXT-X-VERSION:3" ++ NL ++ "" ++ NL ++ "#EXT-X-ENDLIST").
Proof.
  rewrite (@comments_and_blanks_pass_through offline); vm_compute; reflexivity.
Defined.

(** The only thing the scan logs is the missing-URI line. *)
Lemma scan_trace_le {host : Host} (base refUrl : string) (n : nat) :
  forall lines, (List.length lines <= n)%nat ->
  forall out, Forall (eq MISSING_URI) (trace (scan base refUrl lines out)).
Proof.
  induction n as [| n IH]; intros lines Hl out.
  - destruct lines; [constructor | simpl in Hl; lia].
  - destruct lines as [| raw tl]; [constructor |].
    simpl in Hl. cbn [scan].
    destruct (JS.startsWith (JS.trim raw) STREAM_INF).
    + destruct tl as [| raw' tl'].
      * rewrite trace_emit_bind. constructor; [reflexivity | constructor].
      * simpl in Hl. destruct (String.eqb (JS.trim raw') "").
        -- rewrite trace_emit_bind. constructor; [reflexivity |]. apply IH. lia.
        -- destruct (resolve_cases (JS.trim raw') base) as [[e ->] | [abs ->]].
           ++ constructor.
           ++ rewrite bind_ret_l. apply IH. lia.
    + destruct (negb (String.eqb (JS.trim raw) "") && negb (JS.startsWith (JS.trim raw) "#")).
      * destruct (resolve_cases (JS.trim raw) base) as [[e ->] | [abs ->]].
        -- constructor.
        -- rewrite bind_ret_l. apply IH. lia.
      * apply IH. lia.
Qed.

Lemma rewriter_trace {host : Host} (playlistText m3u8Url refUrl : string) :
  Forall (eq MISSING_URI) (trace (processPlaylistContent playlistText m3u8Url refUrl)).
Proof.
  rewrite processPlaylistContent_scan.
  destruct (resolve_cases "." m3u8Url) as [[e ->] | [base ->]]; [constructor |].
  rewrite bind_ret_l.
  pose proof (scan_trace_le base refUrl _ (JS.splitLines playlistText) (le_n _) [])
    as Hs.
  destruct (scan base refUrl (JS.splitLines playlistText) []) as [t [e | out]];
    cbn in *; [assumption | now rewrite app_nil_r].
Qed.

Lemma rewriter_sends_nothing {host : Host} (playlistText m3u8Url refUrl : string) :
  existsb is_fetch (trace (processPlaylistContent playlistText m3u8Url refUrl)) = false.
Proof.
  pose proof (rewriter_trace playlistText m3u8Url refUrl) as H.
  induction H as [| ev t Hev _ IH]; [reflexivity |].
  cbn [existsb]. now rewrite <- Hev, IH.
Qed.

(** X2.  The rewriter has no effect but its log: every event it leaves is
    the missing-URI error line, so it sends no request, whatever the
    playlist and whatever the host answers. *)
Theorem rewriter_only_logs_missing_uri {host : Host}
    (playlistText m3u8Url refUrl : string) :
  Forall (eq MISSING_URI) (trace (processPlaylistContent playlistText m3u8Url refUrl))
  /\ existsb is_fetch (trace (processPlaylistContent playlistText m3u8Url refUrl)) = false.
Proof. split; [apply rewriter_trace | apply rewriter_sends_nothing]. Qed.

(** *** Lines and line breaks *)

Lemma splitLines_cons (s : string) : exists l ls, JS.splitLines s = l :: ls.
Proof.
  induction s as [| c s IH]; [now exists "", [] |].
  destruct IH as (l & ls & E). cbn [JS.splitLines]. rewrite E.
  destruct (JS.code c =? 10)%N; [now eexists; eexists |].
  destruct (JS.code c =? 13)%N; [| now eexists; eexists].
  destruct s as [| d s']; [now eexists; eexists |].
  destruct (JS.code d =? 10)%N; now eexists; eexists.
Qed.

(** No line of a split text holds a line feed. *)
Lemma splitLines_noLF (s : string) : Forall (fun l => noLF l = true) (JS.splitLines s).
Proof.
  assert (G : forall n s, (String.length s <= n)%nat ->
                          Forall (fun l => noLF l = true) (JS.splitLines s)).
  { clear s. induction n as [| n IH]; intros s Hl.
    - destruct s; [repeat constructor | simpl in Hl; lia].
    - destruct s as [| c s]; [repeat constructor |].
      simpl in Hl. assert (Hs : (String.length s <= n)%nat) by lia.
      pose proof (IH s Hs) as Hrec.
      assert (Hkeep : (JS.code c =? 10)%N = false ->
                      Forall (fun l => noLF l = true)
                        match JS.splitLines s with
                        | [] => [String c ""]
                        | l :: ls => String c l :: ls
                        end).
      { intros Hc. destruct (JS.splitLines s) as [| l ls].
        - constructor; [| constructor]. unfold noLF. cbn. now rewrite Hc.
        - inversion Hrec as [| ? ? Hl0 Hls]; subst. constructor; [| assumption].
          unfold noLF in *. cbn. now rewrite Hc. }
      cbn [JS.splitLines].
      destruct (JS.code c =? 10)%N eqn:Hc; [constructor; [reflexivity | assumption] |].
      destruct (JS.code c =? 13)%N; [| now apply Hkeep].
      destruct s as [| d s']; [now apply Hkeep |].
      destruct (JS.code d =? 10)%N; [| now apply Hkeep].
      constructor; [reflexivity |]. apply IH. simpl in Hs. lia. }
  now apply (G (String.length s)).
Qed.

Lemma noLF_trimStart (s : string) : noLF s = true -> noLF (JS.trimStart s) = true.
Proof.
  induction s as [| c s IH]; [reflexivity |].
  intros H. cbn [JS.trimStart]. destruct (JS.isWhiteSpace c); [| assumption].
  apply IH. unfold noLF in *. cbn in H. now apply andb_prop in H as [_ H].
Qed.

Lemma whitespace_CR (c : ascii) :
  JS.isWhiteSpace c = false -> (JS.code c =? 13)%N = false.
Proof.
  unfold JS.isWhiteSpace. intros H.
  destruct (JS.code c =? 13)%N eqn:E; [| reflexivity].
  apply N.eqb_eq in E. rewrite E in H. discriminate H.
Qed.

(** A trimmed line of a split text is a whole line. *)
Lemma wholeLine_trimEnd (s : string) : noLF s = true -> wholeLine (JS.trimEnd s) = true.
Proof.
  induction s as [| c s IH]; [reflexivity |].
  intros H. unfold noLF in H. cbn in H. apply andb_prop in H as [Hc Hs].
  specialize (IH Hs). cbn [JS.trimEnd].
  destruct (JS.trimEnd s) as [| d r].
  - destruct (JS.isWhiteSpace c) eqn:Hw; [reflexivity |].
    cbn. rewrite Hc. now rewrite (whitespace_CR c Hw).
  - cbn [wholeLine] in *. now rewrite Hc, IH.
Qed.

Lemma wholeLine_trim (s : string) : noLF s = true -> wholeLine (JS.trim s) = true.
Proof. intros H. unfold JS.trim. now apply wholeLine_trimEnd, noLF_trimStart. Qed.

Lemma plain_app (a b : string) : plain (a ++ b) = plain a && plain b.
Proof.
  unfold plain. induction a as [| c a IH]; [reflexivity |].
  cbn. rewrite IH. now rewrite andb_assoc.
Qed.

Lemma plain_wholeLine (s : string) : plain s = true -> wholeLine s = true.
Proof.
  unfold plain. induction s as [| c s IH]; [reflexivity |].
  cbn. intros H. apply andb_prop in H as [Hc Hs]. apply andb_prop in Hc as [H1 H2].
  rewrite H1, (IH Hs). now destruct s; rewrite ?H2.
Qed.

(** What [encodeURIComponent] writes for a character holds no line break. *)
Lemma plain_encoded_char (c : ascii) :
  plain (if JS.uriUnreserved c then String c "" else JS.pctUtf8 c) = true.
Proof. destruct c as [[] [] [] [] [] [] [] []]; vm_compute; reflexivity. Qed.

Lemma plain_encodeURIComponent (s : string) : plain (JS.encodeURIComponent s) = true.
Proof.
  induction s as [| c s IH]; [reflexivity |].
  cbn [JS.encodeURIComponent]. rewrite plain_app, IH, andb_true_r.
  apply plain_encoded_char.
Qed.

Lemma wholeLine_streamRef (abs refUrl : string) : wholeLine (streamRef abs refUrl) = true.
Proof.
  apply plain_wholeLine. unfold streamRef.
  now rewrite !plain_app, !plain_encodeURIComponent.
Qed.

Lemma wholeLine_segmentRef (abs refUrl : string) : wholeLine (segmentRef abs refUrl) = true.
Proof.
  apply plain_wholeLine. unfold segmentRef.
  now rewrite !plain_app, !plain_encodeURIComponent.
Qed.

Lemma wholeLine_inv (c : ascii) (x : string) :
  wholeLine (String c x) = true ->
  (JS.code c =? 10)%N = false
  /\ (x = "" -> (JS.code c =? 13)%N = false)
  /\ wholeLine x = true.
Proof.
  cbn [wholeLine]. intros H. apply andb_prop in H as [H Hx].
  apply andb_prop in H as [Hc Hr]. apply negb_true_iff in Hc.
  repeat split; try assumption.
  intros ->. now apply negb_true_iff in Hr.
Qed.

(** A whole line followed by a line feed is split off as it is. *)
Lemma splitLines_line_feed (x rest : string) :
  wholeLine x = true ->
  JS.splitLines (x ++ String JS.LF rest) = x :: JS.splitLines rest.
Proof.
  induction x as [| c x IH]; intros H; [reflexivity |].
  destruct (wholeLine_inv c x H) as (Hc & Hr & Hx).
  specialize (IH Hx).
  change (String c x ++ String JS.LF rest) with (String c (x ++ String JS.LF rest)).
  cbn [JS.splitLines]. rewrite Hc, IH.
  destruct (JS.code c =? 13)%N eqn:E; [| reflexivity].
  destruct x as [| d x']; [now discriminate Hr |].
  destruct (wholeLine_inv d x' Hx) as (Hd & _ & _).
  change (String d x' ++ String JS.LF rest) with (String d (x' ++ String JS.LF rest)).
  cbv iota. now rewrite Hd.
Qed.

Lemma splitLines_whole (x : string) : wholeLine x = true -> JS.splitLines x = [x].
Proof.
  induction x as [| c x IH]; intros H; [reflexivity |].
  destruct (wholeLine_inv c x H) as (Hc & Hr & Hx).
  specialize (IH Hx). cbn [JS.splitLines]. rewrite Hc, IH.
  destruct (JS.code c =? 13)%N eqn:E; [| reflexivity].
  destruct x as [| d x']; [reflexivity |].
  destruct (wholeLine_inv d x' Hx) as (Hd & _ & _). now rewrite Hd.
Qed.

(** Joining whole lines with line feeds and splitting again gives the
    lines back. *)
Lemma splitLines_join (out : list string) :
  out <> [] -> Forall (fun l => wholeLine l = true) out ->
  JS.splitLines (JS.join NL out) = out.
Proof.
  induction out as [| x tl IH]; intros Hne H; [contradiction |].
  inversion H as [| ? ? Hx Htl]; subst.
  destruct tl as [| y tl'].
  - cbn [JS.join]. now apply splitLines_whole.
  - change (JS.join NL (x :: y :: tl')) with (x ++ NL ++ JS.join NL (y :: tl')).
    unfold NL at 1. change (String JS.LF "" ++ JS.join NL (y :: tl'))
      with (String JS.LF (JS.join NL (y :: tl'))).
    rewrite splitLines_line_feed by assumption.
    f_equal. apply IH; [discriminate | assumption].
Qed.

Lemma prefix_app (p x : string) : String.prefix p (p ++ x) = true.
Proof.
  induction p as [| a p IH]; [now destruct x |].
  cbn [append String.prefix]. now destruct (Ascii.ascii_dec a a).
Qed.

Lemma proxied_tag (line : string) :
  JS.startsWith line STREAM_INF = true -> proxied line = true.
Proof.
  intros H. unfold proxied. rewrite (Playlist.tag_starts_with_hash line H).
  now rewrite orb_true_r.
Qed.

Lemma proxied_comment (line : string) :
  negb (String.eqb line "") && negb (JS.startsWith line "#") = false ->
  proxied line = true.
Proof.
  unfold proxied. destruct (String.eqb line ""); [reflexivity |].
  destruct (JS.startsWith line "#"); [reflexivity | discriminate].
Qed.

Lemma proxied_streamRef (abs refUrl : string) : proxied (streamRef abs refUrl) = true.
Proof.
  unfold proxied, streamRef, JS.startsWith.
  rewrite (prefix_app "/player/stream?url="). now rewrite orb_true_r.
Qed.

Lemma proxied_segmentRef (abs refUrl : string) : proxied (segmentRef abs refUrl) = true.
Proof.
  unfold proxied, segmentRef, JS.startsWith.
  rewrite (prefix_app "/segment?url="). now rewrite orb_true_r.
Qed.

Lemma Emitted_nil : Emitted [] [] [].
Proof. split; auto. Qed.

Lemma Emitted_one (raw : string) (tl : list string) (t : list Event)
    (l : string) (emitted : list string) :
  wholeLine l = true -> proxied l = true ->
  Emitted tl t emitted -> Emitted (raw :: tl) t (l :: emitted).
Proof.
  intros Hw Hp [H1 H2 H3 H4 H5]. split.
  - now constructor.
  - now constructor.
  - simpl. lia.
  - intros E. simpl. now rewrite H4.
  - discriminate.
Qed.

Lemma Emitted_pair (raw raw' : string) (tl : list string) (t : list Event)
    (l l' : string) (emitted : list string) :
  wholeLine l = true -> proxied l = true ->
  wholeLine l' = true -> proxied l' = true ->
  Emitted tl t emitted -> Emitted (raw :: raw' :: tl) t (l :: l' :: emitted).
Proof.
  intros Hw Hp Hw' Hp' [H1 H2 H3 H4 H5]. split.
  - now repeat constructor.
  - now repeat constructor.
  - simpl. lia.
  - intros E. simpl. now rewrite H4.
  - discriminate.
Qed.

Lemma Emitted_skipped (lines tl : list string) (t : list Event)
    (l : string) (emitted : list string) :
  wholeLine l = true -> proxied l = true ->
  (List.length tl < List.length lines)%nat ->
  Emitted tl t emitted -> Emitted lines (MISSING_URI :: t) (l :: emitted).
Proof.
  intros Hw Hp Hl [H1 H2 H3 H4 H5]. split.
  - now constructor.
  - now constructor.
  - simpl. lia.
  - discriminate.
  - discriminate.
Qed.

Lemma scan_emits_le {host : Host} (base refUrl : string) (n : nat) :
  forall lines, (List.length lines <= n)%nat ->
  Forall (fun l => noLF l = true) lines ->
  forall out res,
    outcome (scan base refUrl lines out) = inr res ->
    exists emitted,
      res = (out ++ emitted)%list
      /\ Emitted lines (trace (scan base refUrl lines out)) emitted.
Proof.
  induction n as [| n IH]; intros lines Hl Hlf out res Hres.
  - destruct lines; [| simpl in Hl; lia]. cbn in Hres. injection Hres as <-.
    exists []. rewrite app_nil_r. split; [reflexivity | apply Emitted_nil].
  - destruct lines as [| raw tl].
    { cbn in Hres. injection Hres as <-.
      exists []. rewrite app_nil_r. split; [reflexivity | apply Emitted_nil]. }
    simpl in Hl. inversion Hlf as [| ? ? Hraw Htl]; subst.
    pose proof (wholeLine_trim raw Hraw) as Hw.
    cbn [scan] in *.
    destruct (JS.startsWith (JS.trim raw) STREAM_INF) eqn:Htag.
    + pose proof (proxied_tag _ Htag) as Hp.
      destruct tl as [| raw' tl'].
      * rewrite outcome_emit_bind in Hres. cbn in Hres. injection Hres as <-.
        rewrite trace_emit_bind. exists [JS.trim raw]. split; [reflexivity |].
        apply (Emitted_skipped [raw] [] []); auto using Emitted_nil.
      * simpl in Hl. inversion Htl as [| ? ? Hraw' Htl']; subst.
        destruct (String.eqb (JS.trim raw') "").
        -- rewrite outcome_emit_bind in Hres. rewrite trace_emit_bind.
           destruct (IH tl' ltac:(lia) Htl' _ _ Hres) as (em & -> & Hem).
           exists (JS.trim raw :: em). split; [now rewrite <- app_assoc |].
           apply (Emitted_skipped (raw :: raw' :: tl') tl'); auto. simpl. lia.
        -- destruct (resolve_cases (JS.trim raw') base) as [[e E] | [abs E]];
             rewrite E in *; [discriminate Hres |].
           rewrite bind_ret_l in *.
           destruct (IH tl' ltac:(lia) Htl' _ _ Hres) as (em & -> & Hem).
           exists (JS.trim raw :: streamRef abs refUrl :: em).
           split; [now rewrite <- !app_assoc |].
           apply Emitted_pair;
             auto using wholeLine_streamRef, proxied_streamRef.
    + destruct (negb (String.eqb (JS.trim raw) "") && negb (JS.startsWith (JS.trim raw) "#"))
        eqn:Hbare.
      * destruct (resolve_cases (JS.trim raw) base) as [[e E] | [abs E]];
          rewrite E in *; [discriminate Hres |].
        rewrite bind_ret_l in *.
        destruct (IH tl ltac:(lia) Htl _ _ Hres) as (em & -> & Hem).
        exists (segmentRef abs refUrl :: em). split; [now rewrite <- app_assoc |].
        apply Emitted_one; auto using wholeLine_segmentRef, proxied_segmentRef.
      * destruct (IH tl ltac:(lia) Htl _ _ Hres) as (em & -> & Hem).
        exists (JS.trim raw :: em). split; [now rewrite <- app_assoc |].
        apply Emitted_one; auto using proxied_comment.
Qed.

(** The text the rewriter returns splits back into the lines the scan
    emitted. *)
Lemma rewritten_lines {host : Host} (playlistText m3u8Url refUrl rewritten : string) :
  outcome (processPlaylistContent playlistText m3u8Url refUrl) = inr rewritten ->
  Emitted (JS.splitLines playlistText)
    (trace (processPlaylistContent playlistText m3u8Url refUrl))
    (JS.splitLines rewritten).
Proof.
  rewrite processPlaylistContent_scan.
  destruct (resolve_cases "." m3u8Url) as [[e ->] | [base ->]]; [discriminate |].
  rewrite bind_ret_l.
  pose proof (scan_emits_le base refUrl _ (JS.splitLines playlistText) (le_n _)
                (splitLines_noLF playlistText) []) as Hs.
  destruct (scan base refUrl (JS.splitLines playlistText) []) as [t [e | out]] eqn:E;
    [discriminate |].
  cbn. intros H. injection H as <-.
  destruct (Hs out eq_refl) as (em & -> & Hem). cbn [app trace fst] in *.
  rewrite app_nil_r.
  assert (Hne : em <> []).
  { apply (emitted_some _ _ _ Hem). destruct (splitLines_cons playlistText) as (l & ls & ->).
    discriminate. }
  rewrite (splitLines_join em Hne (emitted_whole _ _ _ Hem)). exact Hem.
Qed.

(** X3.  When the rewriter returns, the rewritten playlist has at most as
    many lines as the playlist it was given, and exactly as many when
    nothing was logged, that is, when no [#EXT-X-STREAM-INF] line lacked
    its URI. *)
Theorem rewritten_line_count {host : Host}
    (playlistText m3u8Url refUrl rewritten : string) :
  outcome (processPlaylistContent playlistText m3u8Url refUrl) = inr rewritten ->
  (List.length (JS.splitLines rewritten) <= List.length (JS.splitLines playlistText))%nat
  /\ (trace (processPlaylistContent playlistText m3u8Url refUrl) = [] ->
      List.length (JS.splitLines rewritten) = List.length (JS.splitLines playlistText)).
Proof.
  intros H. destruct (rewritten_lines _ _ _ _ H) as [_ _ Hle Heq _]. now split.
Qed.

(** X4.  No bare URI line is left in a rewritten playlist: each of its
    lines is blank, starts with [#], or is a reference into the proxy that
    starts with [/player/stream?url=] or [/segment?url=]. *)
Theorem rewritten_lines_are_proxied {host : Host}
    (playlistText m3u8Url refUrl rewritten : string) :
  outcome (processPlaylistContent playlistText m3u8Url refUrl) = inr rewritten ->
  forall line, In line (JS.splitLines rewritten) ->
    line = "" \/ JS.startsWith line "#" = true
    \/ JS.startsWith line "/player/stream?url=" = true
    \/ JS.startsWith line "/segment?url=" = true.
Proof.
  intros H line Hin. destruct (rewritten_lines _ _ _ _ H) as [_ Hp _ _ _].
  rewrite Forall_forall in Hp. specialize (Hp line Hin). unfold proxied in Hp.
  apply orb_prop in Hp as [Hp | Hp]; [| now repeat right].
  apply orb_prop in Hp as [Hp | Hp]; [| now right; right; left].
  apply orb_prop in Hp as [Hp | Hp]; [| now right; left].
  left. now apply String.eqb_eq.
Qed.

Lemma rewritten_line_count_witness :
  let playlistText :=
    "#EXTM3U" ++ NL ++ "#EXT-X-STREAM-INF:BANDWIDTH=100" ++ NL ++ "  " ++ NL ++ "seg001.ts" in
  let rewritten :=
    "#EXTM3U" ++ NL ++ "#EXT-X-STREAM-INF:BANDWIDTH=100" ++ NL ++
    "/segment?url=https%3A%2F%2Fcdn.example.com%2Flive%2Fseg001.ts&ref=https%3A%2F%2Fsite.example.com%2F" in
  (List.length (JS.splitLines rewritten) <= List.length (JS.splitLines playlistText))%nat
  /\ (trace (@processPlaylistContent offline playlistText PLAYLIST_URL REFERER) = [] ->
      List.length (JS.splitLines rewritten) = List.length (JS.splitLines playlistText)).
Proof.
  intros playlistText rewritten.
  apply (@rewritten_line_count offline playlistText PLAYLIST_URL REFERER rewritten).
  vm_compute. reflexivity.
Defined.

Lemma rewritten_lines_are_proxied_witness :
  let line :=
    "/segment?url=https%3A%2F%2Fcdn.example.com%2Flive%2Fseg001.ts&ref=https%3A%2F%2Fsite.example.com%2F" in
  line = "" \/ JS.startsWith line "#" = true
  \/ JS.startsWith line "/player/stream?url=" = true
  \/ JS.startsWith line "/segment?url=" = true.
Proof.
  intros line.
  apply (@rewritten_lines_are_proxied offline ("#EXTM3U" ++ NL ++ "seg001.ts")
           PLAYLIST_URL REFERER ("#EXTM3U" ++ NL ++ line)).
  - vm_compute. reflexivity.
  - vm_compute. right. left. reflexivity.
Defined.

(** The scan reads its lines only through their trimmed text. *)
Lemma scan_trim_ext_le {host : Host} (base refUrl : string) (n : nat) :
  forall l1 l2, (List.length l1 <= n)%nat ->
  map JS.trim l1 = map JS.trim l2 ->
  forall out, scan base refUrl l1 out = scan base refUrl l2 out.
Proof.
  induction n as [| n IH]; intros l1 l2 Hl Hm out.
  - destruct l1; [| simpl in Hl; lia]. destruct l2; [reflexivity | discriminate Hm].
  - destruct l1 as [| a t1]; destruct l2 as [| b t2]; try discriminate Hm;
      [reflexivity |].
    cbn [map] in Hm. injection Hm as Hab Ht. simpl in Hl.
    cbn [scan]. rewrite Hab.
    destruct (JS.startsWith (JS.trim b) STREAM_INF).
    + destruct t1 as [| a' t1']; destruct t2 as [| b' t2']; try discriminate Ht;
        [reflexivity |].
      cbn [map] in Ht. injection Ht as Hab' Ht'. simpl in Hl. rewrite Hab'.
      destruct (String.eqb (JS.trim b') "").
      * apply emit_bind. apply IH; [lia | assumption].
      * apply bind_ext. intros abs. apply IH; [lia | assumption].
    + destruct (negb (String.eqb (JS.trim b) "") && negb (JS.startsWith (JS.trim b) "#")).
      * apply bind_ext. intros abs. apply IH; [lia | assumption].
      * apply IH; [lia | assumption].
Qed.

(** X5.  Two playlists whose lines agree once trimmed are rewritten alike,
    log included: white space around a line, and a carriage return before
    the line feed, make no difference. *)
Theorem rewrite_ignores_surrounding_space {host : Host}
    (text1 text2 m3u8Url refUrl : string) :
  map JS.trim (JS.splitLines text1) = map JS.trim (JS.splitLines text2) ->
  processPlaylistContent text1 m3u8Url refUrl
  = processPlaylistContent text2 m3u8Url refUrl.
Proof.
  intros H. rewrite !processPlaylistContent_scan.
  apply bind_ext. intros base.
  now rewrite (scan_trim_ext_le base refUrl _ _ _ (le_n _) H).
Qed.

Lemma rewrite_ignores_surrounding_space_witness :
  @processPlaylistContent offline
    ("#EXTM3U" ++ String JS.CR NL ++ "  seg001.ts " ++ String JS.CR NL ++ "#EXT-X-ENDLIST")
    PLAYLIST_URL REFERER
  = @processPlaylistContent offline
      ("#EXTM3U" ++ NL ++ "seg001.ts" ++ NL ++ "#EXT-X-ENDLIST") PLAYLIST_URL REFERER.
Proof.
  apply (@rewrite_ignores_surrounding_space offline). vm_compute. reflexivity.
Defined.

End PlaylistMore.

(** ** Objects and headers *)

Module ObjFacts.

Lemma Obj_get_set (o : Obj) (k v k' : string) :
  Obj_get (Obj_set o k v) k' = if String.eqb k k' then Some v else Obj_get o k'.
Proof.
  induction o as [| [k0 v0] tl IH]; cbn [Obj_set Obj_get]; [reflexivity |].
  destruct (String.eqb k0 k) eqn:E0; cbn [Obj_get].
  - apply String.eqb_eq in E0. subst k0.
    now destruct (String.eqb k k').
  - rewrite IH. destruct (String.eqb k0 k') eqn:E1; [| reflexivity].
    apply String.eqb_eq in E1. subst k'.
    rewrite String.eqb_sym in E0. now rewrite E0.
Qed.

(** [{...a, ...b}] holds under a key the last value [b] gives it, and the
    value of [a] when [b] gives none. *)
Lemma Obj_get_spread (b : Obj) :
  forall (a : Obj) (k : string),
    Obj_get (Obj_spread a b) k
    = match lastEntry b k with
      | Some v => Some v
      | None => Obj_get a k
      end.
Proof.
  unfold Obj_spread.
  induction b as [| [k0 v0] tl IH]; intros a k; cbn [fold_left lastEntry fst snd];
    [reflexivity |].
  rewrite IH. destruct (lastEntry tl k); [reflexivity |].
  rewrite Obj_get_set. now destruct (String.eqb k0 k).
Qed.

Lemma lastEntry_none (o : Obj) (k : string) :
  Obj_get o k = None -> lastEntry o k = None.
Proof.
  induction o as [| [k0 v0] tl IH]; cbn [Obj_get lastEntry]; [reflexivity |].
  destruct (String.eqb k0 k); [discriminate |].
  intros H. now rewrite (IH H).
Qed.

Lemma Headers_get_set (h : Headers) (k v k' : string) :
  Headers_get (Headers_set h k v) k'
  = if String.eqb (JS.toLower k) (JS.toLower k') then Some v else Headers_get h k'.
Proof. unfold Headers_get, Headers_set. apply Obj_get_set. Qed.

(** A run of [headers.set] calls leaves under a name the last value set
    for it, names compared without regard to case. *)
Lemma Headers_get_fold (o : Obj) :
  forall (h : Headers) (k : string),
    Headers_get (fold_left (fun h kv => Headers_set h (fst kv) (snd kv)) o h) k
    = match lastValue o k with
      | Some v => Some v
      | None => Headers_get h k
      end.
Proof.
  induction o as [| [k0 v0] tl IH]; intros h k; cbn [fold_left lastValue fst snd];
    [reflexivity |].
  rewrite IH. destruct (lastValue tl k); [reflexivity |].
  rewrite Headers_get_set. now destruct (String.eqb (JS.toLower k0) (JS.toLower k)).
Qed.

(** For a token name and a value without blanks to remove or illegal
    bytes, [headers.set] stores the pair as it stands. *)
Lemma Headers_set_taken (h : Headers) (k v : string) :
  isHeaderName k = true -> isHeaderValue v = true ->
  Headers_set_checked h k v = inr (Headers_set h k v).
Proof.
  intros Hk Hv. unfold Headers_set_checked. unfold isHeaderValue in Hv.
  apply andb_prop in Hv as [Hn Hl]. apply String.eqb_eq in Hn.
  now rewrite Hn, Hk, Hl.
Qed.

Lemma Headers_setAll_taken (o : Obj) :
  forall h : Headers,
    takenAsGiven o = true ->
    Headers_setAll o h = inr (fold_left (fun h kv => Headers_set h (fst kv) (snd kv)) o h).
Proof.
  induction o as [| [k v] tl IH]; intros h H; cbn [Headers_setAll fold_left fst snd];
    [reflexivity |].
  cbn [takenAsGiven forallb fst snd] in H.
  apply andb_prop in H as [Hkv Htl]. apply andb_prop in Hkv as [Hk Hv].
  rewrite (Headers_set_taken h k v Hk Hv). now apply IH.
Qed.

(** A value with a blank at an end is stored shortened, and a value with a
    line feed inside is refused, as is a name with a space. *)
Example set_strips_and_refuses :
  Headers_set_checked [] "Referer" " https://site.example.com/ "
  = inr [("referer", "https://site.example.com/")]
  /\ Headers_set_checked [] "Referer" ("https://site.example.com/" ++ String JS.LF "watch")
     = inl (mkError "TypeError" "Invalid header")
  /\ Headers_set_checked [] "X Bad" "1" = inl (mkError "TypeError" "Invalid header").
Proof. repeat split. Qed.

End ObjFacts.

(** ** The HTTP client: what else the code shows *)

Module ClientMore.
Import HttpClient ObjFacts.

(** The defaults are names and values [headers.set] takes as they stand. *)
Example defaults_taken_as_given : takenAsGiven DEFAULT_HEADERS = true.
Proof. reflexivity. Qed.

(** When the caller's entries are taken as they stand, the [set] calls of
    [fetchWithConfig], over the defaults and then over the caller's
    entries, all return, and build [requestHeaders]. *)
Lemma requestHeaders_built (o : Obj) :
  takenAsGiven o = true ->
  Headers_setAll (DEFAULT_HEADERS ++ o)%list [] = inr (requestHeaders (Some o)).
Proof.
  intros H. rewrite Headers_setAll_taken.
  - unfold requestHeaders. now rewrite fold_left_app.
  - unfold takenAsGiven in *. rewrite forallb_app, H. reflexivity.
Qed.

(** X6.  Let the caller's headers be names and values that [headers.set]
    takes as they stand (token names; values without NUL, line feed or
    carriage return and without a blank at either end).  Then every [set]
    call of the header building returns, and in the headers of the
    outbound request, read under any header name, a header the caller
    gives replaces the default of the same name, whatever the case of the
    two names, the caller's last value winning; every default the caller
    does not name is sent as it is. *)
Theorem caller_headers_override_defaults (o : Obj) (k : string) :
  takenAsGiven o = true ->
  isHeaderName k = true ->
  Headers_setAll (DEFAULT_HEADERS ++ o)%list [] = inr (requestHeaders (Some o))
  /\ Headers_get (requestHeaders (Some o)) k
     = match lastValue o k with
       | Some v => Some v
       | None => Headers_get (requestHeaders None) k
       end.
Proof.
  intros Ho _. split; [now apply requestHeaders_built |].
  unfold requestHeaders. apply Headers_get_fold.
Qed.

Lemma caller_headers_override_defaults_witness :
  let o := [ ("accept", "application/vnd.apple.mpegurl"); ("X-Token", "abc") ] in
  Headers_setAll (DEFAULT_HEADERS ++ o)%list [] = inr (requestHeaders (Some o))
  /\ Headers_get (requestHeaders (Some o)) "Accept" = Some "application/vnd.apple.mpegurl".
Proof.
  intros o.
  exact (caller_headers_override_defaults o "Accept" eq_refl eq_refl).
Defined.

(** X7.  [fetchWithProxy] sends nothing unless both the referer and the
    target parse: when either is rejected by the [URL] constructor, the
    call throws that error and no request has been made. *)
Theorem fetchWithProxy_needs_both_urls {host : Host}
    (target refUrl : string) (options_headers : option Obj) (timeout : option Z)
    (e : Error) :
  new_URL refUrl None = inl e
  \/ (exists r, new_URL refUrl None = inr r /\ new_URL target None = inl e) ->
  fetchWithProxy target refUrl options_headers timeout = throw e.
Proof.
  unfold fetchWithProxy, createProxyHeaders. cbn [toStr].
  intros [H | (r & Hr & H)].
  - now rewrite H.
  - now rewrite Hr, H.
Qed.

Lemma fetchWithProxy_needs_both_urls_witness :
  @fetchWithProxy (webHost (answering (mkResponse 200 "OK" [] (Some ""))) CLOCK)
    "cdn.example.com/seg001.ts" REFERER None None
  = throw (mkError "TypeError" "Invalid URL").
Proof.
  apply (@fetchWithProxy_needs_both_urls
           (webHost (answering (mkResponse 200 "OK" [] (Some ""))) CLOCK)).
  right.
  exists (mkURL REFERER "https://site.example.com" "site.example.com" "/" []).
  split; vm_compute; reflexivity.
Defined.

(** X8.  Let both parse, let the referer as given, its origin and the
    target's host name be values that [headers.set] takes as they stand,
    and let the caller give no headers of its own.  Then every [set] call
    of the header building returns and [fetchWithProxy] calls [fetch]
    exactly once, for the target, whatever comes of it; the [Headers]
    object it hands over holds the referer as [Referer], its origin as
    [Origin], the target's host name as [Host], the three fetch-metadata
    hints, and the default [User-Agent]. *)
Theorem fetchWithProxy_request {host : Host}
    (target refUrl : string) (timeout : option Z) (r t : URL) :
  new_URL refUrl None = inr r ->
  new_URL target None = inr t ->
  isHeaderValue refUrl = true ->
  isHeaderValue (origin r) = true ->
  isHeaderValue (hostname t) = true ->
  exists sent,
    trace (fetchWithProxy target refUrl None timeout) = [Fetched target sent]
    /\ Headers_setAll
         (DEFAULT_HEADERS ++ [ ("Referer", refUrl);
                               ("Origin", origin r);
                               ("Host", hostname t);
                               ("Sec-Fetch-Dest", "empty");
                               ("Sec-Fetch-Mode", "cors");
                               ("Sec-Fetch-Site", "cross-site") ])%list [] = inr sent
    /\ Headers_get sent "Referer" = Some refUrl
    /\ Headers_get sent "Origin" = Some (origin r)
    /\ Headers_get sent "Host" = Some (hostname t)
    /\ Headers_get sent "Sec-Fetch-Dest" = Some "empty"
    /\ Headers_get sent "Sec-Fetch-Mode" = Some "cors"
    /\ Headers_get sent "Sec-Fetch-Site" = Some "cross-site"
    /\ Headers_get sent "User-Agent" = Obj_get DEFAULT_HEADERS "User-Agent".
Proof.
  intros Hr Ht H1 H2 H3. unfold fetchWithProxy, createProxyHeaders. cbn [toStr].
  rewrite Hr, Ht. cbn [lift bind ret app].
  unfold fetchWithConfig. cbn [emit bind lift try_catch].
  eexists. split; [| split].
  - destruct (fetch target _ _) as [e | resp]; cbn.
    + reflexivity.
    + destruct ((status resp <? 200)%Z || (status resp >=? 400)%Z); reflexivity.
  - apply requestHeaders_built.
    cbn [takenAsGiven forallb fst snd]. rewrite H1, H2, H3. reflexivity.
  - repeat split.
Qed.

Lemma fetchWithProxy_request_witness :
  exists sent,
    trace (@fetchWithProxy offline "https://cdn.example.com/live/seg001.ts"
             "https://site.example.com/watch?v=1" None None)
    = [Fetched "https://cdn.example.com/live/seg001.ts" sent]
    /\ Headers_setAll
         (DEFAULT_HEADERS ++ [ ("Referer", "https://site.example.com/watch?v=1");
                               ("Origin", "https://site.example.com");
                               ("Host", "cdn.example.com");
                               ("Sec-Fetch-Dest", "empty");
                               ("Sec-Fetch-Mode", "cors");
                               ("Sec-Fetch-Site", "cross-site") ])%list [] = inr sent
    /\ Headers_get sent "Referer" = Some "https://site.example.com/watch?v=1"
    /\ Headers_get sent "Origin" = Some "https://site.example.com"
    /\ Headers_get sent "Host" = Some "cdn.example.com"
    /\ Headers_get sent "Sec-Fetch-Dest" = Some "empty"
    /\ Headers_get sent "Sec-Fetch-Mode" = Some "cors"
    /\ Headers_get sent "Sec-Fetch-Site" = Some "cross-site"
    /\ Headers_get sent "User-Agent" = Obj_get DEFAULT_HEADERS "User-Agent".
Proof.
  apply (@fetchWithProxy_request offline
           "https://cdn.example.com/live/seg001.ts" "https://site.example.com/watch?v=1" None
           (mkURL "https://site.example.com/watch?v=1" "https://site.example.com"
                  "site.example.com" "/watch" [("v", "1")])
           (mkURL "https://cdn.example.com/live/seg001.ts" "https://cdn.example.com"
                  "cdn.example.com" "/live/seg001.ts" []));
    vm_compute; reflexivity.
Defined.

(** X9.  When the outbound request is rejected (the deadline passed, or
    the network failed), [fetchWithConfig] has made its one request and
    throws the very error of the rejection; caught at a handler's boundary
    it is answered with the status [createHttpErrorResponse] reads off it,
    which is 408 for an [AbortError]. *)
Theorem rejection_is_rethrown {host : Host} (target : string)
    (options_headers : option Obj) (timeout : option Z) (e : Error) (operation : string) :
  fetch target (requestHeaders options_headers) (timeoutOr timeout) = inl e ->
  fetchWithConfig target options_headers timeout
  = ([Fetched target (requestHeaders options_headers)], inl e)
  /\ exists resp,
       outcome (try_catch (fetchWithConfig target options_headers timeout)
                  (fun err => createHttpErrorResponse err operation)) = inr resp
       /\ status resp = statusCodeOf e
       /\ (name e = "AbortError" -> status resp = 408%Z).
Proof.
  intros Hf.
  assert (E : fetchWithConfig target options_headers timeout
              = ([Fetched target (requestHeaders options_headers)], inl e)).
  { unfold fetchWithConfig. cbn [emit bind lift try_catch]. now rewrite Hf. }
  split; [assumption |]. rewrite E.
  eexists. split; [reflexivity |]. split; [reflexivity |].
  intros Hn. cbn [status new_Response]. unfold statusCodeOf. now rewrite Hn.
Qed.

Lemma rejection_is_rethrown_witness :
  let timedOut := mkError "AbortError" "The operation was aborted" in
  let host := webHost (fun _ _ _ => inl timedOut) CLOCK in
  @fetchWithConfig host "https://cdn.example.com/seg001.ts" None None
  = ([Fetched "https://cdn.example.com/seg001.ts" (requestHeaders None)], inl timedOut)
  /\ exists resp,
       outcome (try_catch (@fetchWithConfig host "https://cdn.example.com/seg001.ts" None None)
                  (fun err => @createHttpErrorResponse host err "fetch video segment"))
       = inr resp
       /\ status resp = statusCodeOf timedOut
       /\ (name timedOut = "AbortError" -> status resp = 408%Z).
Proof.
  intros timedOut host.
  apply (@rejection_is_rethrown host "https://cdn.example.com/seg001.ts" None None timedOut).
  reflexivity.
Defined.

(** *** Reading the status off the message *)








Lemma string_app_assoc (a b c : string) : (a ++ b) ++ c = a ++ (b ++ c).
Proof. induction a as [| x a IH]; [reflexivity | cbn; now rewrite IH]. Qed.






(** X11.  [isValidUrl], [extractDomain] and [parseUrl] agree on every
    string: the first is [true] exactly when the second gives a host name
    and exactly when the third returns; when it is [false] the second gives
    [null] and the third logs one line and throws [Invalid URL: ] followed
    by the string. *)
Theorem url_helpers_agree {host : Host} (input : string) :
  (isValidUrl input = true <->
   exists u, UrlUtils.parseUrl input = ret u /\ extractDomain input = Some (hostname u))
  /\ (isValidUrl input = false <->
      extractDomain input = None
      /\ exists line,
           UrlUtils.parseUrl input
           = ([ConsoleError line], inl (mkError "Error" ("Invalid URL: " ++ input)))).
Proof.
  unfold isValidUrl, extractDomain, UrlUtils.parseUrl, lift.
  destruct (new_URL input None) as [e | u]; cbn [try_catch emit bind throw app].
  - split; split.
    + discriminate.
    + intros (u & H & _). discriminate H.
    + intros _. split; [reflexivity |]. now eexists.
    + reflexivity.
  - split; split.
    + intros _. now exists u.
    + reflexivity.
    + discriminate.
    + intros [H _]. discriminate H.
Qed.

(** X12.  The two header builders agree wherever the values they are
    given are values [headers.set] takes as they stand.  Let the referer
    as given and its origin be such values whenever the referer parses, and
    the target's host name whenever the target parses.  Then
    [createProxyHeadersAPI] returns, or throws, what [createProxyHeaders]
    does, its object read into a [Headers] object. *)
Theorem header_builders_agree {host : Host} (refUrl targetUrl : string) :
  (forall r, new_URL refUrl None = inr r ->
             isHeaderValue refUrl = true /\ isHeaderValue (origin r) = true) ->
  (forall t, new_URL targetUrl None = inr t -> isHeaderValue (hostname t) = true) ->
  createProxyHeadersAPI refUrl targetUrl
  = (h <- createProxyHeaders refUrl (Some targetUrl) ;; ret (Headers_of h)).
Proof.
  intros Href Htgt.
  unfold createProxyHeadersAPI, createProxyHeaders, lift. cbn [toStr].
  destruct (new_URL refUrl None) as [e | r]; [reflexivity |].
  destruct (Href r eq_refl) as [H1 H2].
  destruct (new_URL targetUrl None) as [e | t]; [reflexivity |].
  pose proof (Htgt t eq_refl) as H3.
  cbn [bind ret app].
  rewrite (Headers_set_taken [] "Referer" refUrl eq_refl H1). cbn [bind app].
  rewrite (Headers_set_taken _ "Origin" (origin r) eq_refl H2). cbn [bind app].
  rewrite (Headers_set_taken _ "Host" (hostname t) eq_refl H3). cbn [bind app].
  reflexivity.
Qed.

Lemma header_builders_agree_witness :
  @createProxyHeadersAPI offline "https://site.example.com/watch?v=1"
    "https://cdn.example.com/live/seg001.ts"
  = (h <- @createProxyHeaders offline "https://site.example.com/watch?v=1"
            (Some "https://cdn.example.com/live/seg001.ts") ;;
     ret (Headers_of h)).
Proof.
  apply (@header_builders_agree offline).
  - intros r Hr. vm_compute in Hr. injection Hr as <-. split; reflexivity.
  - intros t Ht. vm_compute in Ht. injection Ht as <-. reflexivity.
Defined.

(** Outside that range the builders part: a referer with a line feed
    inside parses (the [URL] parser drops it), so the plain builder
    returns its object with the referer as given, while the first [set]
    of the other throws. *)
Example builders_part_on_line_feed :
  let refUrl := "https://site.example.com/" ++ String JS.LF "watch" in
  let target := "https://cdn.example.com/live/seg001.ts" in
  @createProxyHeaders offline refUrl (Some target)
  = ret [ ("Referer", refUrl);
          ("Origin", "https://site.example.com");
          ("Host", "cdn.example.com");
          ("Sec-Fetch-Dest", "empty");
          ("Sec-Fetch-Mode", "cors");
          ("Sec-Fetch-Site", "cross-site") ]
  /\ @createProxyHeadersAPI offline refUrl target
     = throw (mkError "TypeError" "Invalid header").
Proof. split; vm_compute; reflexivity. Qed.

End ClientMore.


(** ** Validation, handlers and router: what else the code shows *)

Module HandlersMore.
Import UrlUtils ObjFacts.

(** What an assignment leaves under a key. *)
Lemma Obj_get_assign (o : Obj) (k v k' : string) :
  Obj_get (Obj_assign o k v) k'
  = if negb (String.eqb k "__proto__") && String.eqb k k' then Some v else Obj_get o k'.
Proof.
  unfold Obj_assign. destruct (String.eqb k "__proto__"); cbn [negb andb]; [reflexivity |].
  apply Obj_get_set.
Qed.

Lemma validate_params_from (sp : list (string * string)) (p : string)
    (requiredParams : list string) :
  forall st,
    Obj_get (fst (fold_left (validateStep sp) requiredParams st)) p
    = if negb (String.eqb p "__proto__") && existsb (String.eqb p) requiredParams
         && negb (falsy (searchParams_get sp p))
      then searchParams_get sp p
      else Obj_get (fst st) p.
Proof.
  induction requiredParams as [| r tl IH]; intros st; cbn [fold_left existsb].
  - now rewrite andb_false_r.
  - rewrite IH. clear IH. unfold validateStep.
    destruct (String.eqb p "__proto__") eqn:Epp; cbn [negb andb].
    + destruct (falsy (searchParams_get sp r)); cbn [fst]; [reflexivity |].
      rewrite Obj_get_assign.
      destruct (String.eqb r p) eqn:Erp; [| now rewrite andb_false_r].
      apply String.eqb_eq in Erp. subst r. now rewrite Epp.
    + destruct (String.eqb p r) eqn:Epr.
      * apply String.eqb_eq in Epr. subst r. cbn [orb].
        destruct (searchParams_get sp p) as [x |] eqn:Eg; cbn [falsy negb andb].
        -- destruct (String.eqb x "") eqn:Ex; cbn [negb fst snd].
           ++ now rewrite andb_false_r.
           ++ rewrite andb_true_r, Obj_get_assign, Epp, String.eqb_refl. cbn [toStr negb andb].
              now destruct (existsb (String.eqb p) tl).
        -- now rewrite andb_false_r.
      * cbn [orb].
        assert (Hst : Obj_get
                        (fst (if falsy (searchParams_get sp r)
                              then (fst st, (snd st ++ [r])%list)
                              else (Obj_assign (fst st) r (toStr (searchParams_get sp r)),
                                    snd st)))
                        p = Obj_get (fst st) p).
        { destruct (falsy (searchParams_get sp r)); cbn [fst]; [reflexivity |].
          rewrite Obj_get_assign. rewrite String.eqb_sym in Epr. rewrite Epr.
          now rewrite andb_false_r. }
        now rewrite Hst.
Qed.

(** X13.  [validateQueryParams] sorts the required names by what the query
    holds: a name is in [missing] exactly when it is required and its first
    value is absent or empty; [params] holds a value under a name, as a
    property of its own, exactly when the name is required, is not
    [__proto__] (an assignment under that name stores nothing), and the
    value is its first, non-empty, value in the query; and [isValid] holds
    exactly when no required name is absent or empty. *)
Theorem validation_sorts_required_names (sp : list (string * string))
    (requiredParams : list string) :
  let v := validateQueryParams sp requiredParams in
  (forall p, In p (missing v) <->
             In p requiredParams /\ falsy (searchParams_get sp p) = true)
  /\ (forall p x, Obj_get (params v) p = Some x <->
                  p <> "__proto__" /\ In p requiredParams
                  /\ searchParams_get sp p = Some x /\ x <> "")
  /\ (isValid v = true <->
      forall p, In p requiredParams -> falsy (searchParams_get sp p) = false).
Proof.
  intros v. subst v. split; [| split].
  - intros p. rewrite Handlers.validate_missing. unfold absentParams. apply filter_In.
  - intros p x. unfold validateQueryParams. cbn [params]. rewrite validate_params_from.
    cbn [fst Obj_get]. split.
    + destruct (String.eqb p "__proto__") eqn:Epp; cbn [negb andb]; [discriminate |].
      apply String.eqb_neq in Epp.
      destruct (existsb (String.eqb p) requiredParams) eqn:Ex; cbn [andb]; [| discriminate].
      apply existsb_exists in Ex as (q & Hq & Epq). apply String.eqb_eq in Epq. subst q.
      destruct (searchParams_get sp p) as [y |]; cbn [falsy negb]; [| discriminate].
      destruct (String.eqb y "") eqn:Ey; cbn [negb]; [discriminate |].
      intros H. injection H as ->. apply String.eqb_neq in Ey. auto.
    + intros (Hpp & Hin & Hg & Hx). rewrite Hg. cbn [falsy].
      apply String.eqb_neq in Hx, Hpp. rewrite Hx, Hpp. cbn [negb]. rewrite andb_true_r.
      assert (Ex : existsb (String.eqb p) requiredParams = true).
      { apply existsb_exists. exists p. split; [assumption | apply String.eqb_refl]. }
      now rewrite Ex.
  - rewrite Handlers.validate_isValid. unfold absentParams. split.
    + intros H p Hin.
      destruct (falsy (searchParams_get sp p)) eqn:Ef; [| reflexivity].
      assert (Hf : In p (filter (fun param => falsy (searchParams_get sp param))
                           requiredParams)) by (apply filter_In; auto).
      destruct (filter _ requiredParams); [contradiction | discriminate].
    + intros H.
      destruct (filter (fun param => falsy (searchParams_get sp param)) requiredParams)
        as [| q l] eqn:Ef; [reflexivity |].
      assert (Hq : In q (q :: l)) by now left.
      rewrite <- Ef in Hq. apply filter_In in Hq as [Hin Hfq].
      rewrite (H q Hin) in Hfq. discriminate.
Qed.

(** The name [__proto__] among the required ones: its value is found in
    the query, the name is not reported missing, and yet [params] holds
    nothing under it. *)
Example proto_is_not_stored :
  validateQueryParams [("__proto__", "x"); ("url", "u")] ["__proto__"; "url"]
  = mkValidation true [("url", "u")] [].
Proof. reflexivity. Qed.

Lemma try_catch_answers {A} (m : M A) (h : Error -> M A) :
  (forall e, exists a, outcome (h e) = inr a) ->
  exists a, outcome (try_catch m h) = inr a.
Proof.
  intros Hh. destruct m as [t [e | a]]; cbn [try_catch].
  - destruct (Hh e) as [a Ha]. destruct (h e) as [t' r]. cbn in *. now exists a.
  - now exists a.
Qed.

Lemma error_response_answers {host : Host} (operation : string) (e : Error) :
  exists resp, outcome (HttpClient.createHttpErrorResponse e operation) = inr resp.
Proof. eexists. reflexivity. Qed.

(** X14.  Once the request URL has parsed, the worker answers every
    request with a response: whatever a handler throws on the way (a URL
    that fails to resolve in the playlist, a rejected or turned-down
    upstream request) is caught at its boundary and becomes an error
    response, so nothing is thrown to the run time. *)
Theorem worker_always_answers {host : Host} (request : Request) (u : URL) :
  new_URL (req_url request) None = inr u ->
  exists resp, outcome (Index.fetch request) = inr resp.
Proof.
  intros Hu. unfold Index.fetch. rewrite Hu. cbn [lift bind].
  assert (G : forall m : M Response,
             (exists resp, outcome m = inr resp) ->
             exists resp, outcome (let (t', r) := m in (([] ++ t')%list, r)) = inr resp).
  { intros [t r] H. exact H. }
  apply G.
  destruct (String.eqb (req_method request) "OPTIONS"); [now eexists |].
  destruct (negb (String.eqb (req_method request) "GET")); [now eexists |].
  destruct (String.eqb (pathname u) "/player/stream").
  { apply try_catch_answers. apply error_response_answers. }
  destruct (String.eqb (pathname u) "/segment").
  { apply try_catch_answers. apply error_response_answers. }
  destruct (String.eqb (pathname u) "/" || String.eqb (pathname u) "/health");
    now eexists.
Qed.

Lemma worker_always_answers_witness :
  exists resp,
    outcome (@Index.fetch offline
               (mkRequest "GET" "https://worker.example.com/segment?url=https%3A%2F%2Fcdn.example.com%2Fs.ts&ref=https%3A%2F%2Fsite.example.com%2F"))
    = inr resp.
Proof.
  refine (@worker_always_answers offline _
            (mkURL "https://worker.example.com/segment?url=https%3A%2F%2Fcdn.example.com%2Fs.ts&ref=https%3A%2F%2Fsite.example.com%2F"
               "https://worker.example.com" "worker.example.com" "/segment"
               [("url", "https://cdn.example.com/s.ts"); ("ref", "https://site.example.com/")])
            _).
  vm_compute. reflexivity.
Defined.

(** The validation of a query that gives both [url] and [ref]. *)
Lemma validate_both_given (sp : list (string * string)) (u r : string) :
  searchParams_get sp "url" = Some u -> u <> "" ->
  searchParams_get sp "ref" = Some r -> r <> "" ->
  validateQueryParams sp ["url"; "ref"]
  = mkValidation true [("url", u); ("ref", r)] [].
Proof.
  intros Hu Hnu Hr Hnr. apply String.eqb_neq in Hnu, Hnr.
  unfold validateQueryParams. cbn [fold_left]. unfold validateStep.
  rewrite Hu. cbn [falsy]. rewrite Hnu. cbn [fst snd].
  rewrite Hr. cbn [falsy]. rewrite Hnr. reflexivity.
Qed.

(** X15.  When [url] and [ref] are both given but one of them is not a
    URL (the first that fails, [url] before [ref]), either handler answers
    400 with the body [{error: Invalid URL: ...}] naming that value, after
    two console lines, and sends no request. *)
Theorem unparsable_parameter_is_400 {host : Host} (request : Request) (url : URL)
    (u r bad : string) (e : Error) :
  searchParams_get (searchParams url) "url" = Some u -> u <> "" ->
  searchParams_get (searchParams url) "ref" = Some r -> r <> "" ->
  (new_URL u None = inl e /\ bad = u)
  \/ ((exists parsed, new_URL u None = inr parsed) /\ new_URL r None = inl e /\ bad = r) ->
  let answer :=
    new_Response
      (Some (Json.stringify (JObject [ ("error", JString ("Invalid URL: " ++ bad)) ])))
      (Some 400%Z) [ ("Content-Type", "application/json") ] in
  (exists line1 line2,
     M3u8Handler.proxyM3U8 request url
     = ([ConsoleError line1; ConsoleError line2], inr answer))
  /\ (exists line1 line2,
        SegmentHandler.proxySegment request url
        = ([ConsoleError line1; ConsoleError line2], inr answer)).
Proof.
  intros Hu Hnu Hr Hnr Hbad answer. subst answer.
  unfold M3u8Handler.proxyM3U8, SegmentHandler.proxySegment.
  rewrite (validate_both_given _ u r Hu Hnu Hr Hnr).
  cbn [isValid negb params Obj_get toStr]. cbn [String.eqb Ascii.eqb Bool.eqb].
  cbn [toStr]. unfold parseUrl, lift.
  destruct Hbad as [[He ->] | ([parsed Hp] & He & ->)].
  - rewrite He. split; do 2 eexists; reflexivity.
  - rewrite Hp, He. split; do 2 eexists; reflexivity.
Qed.

Lemma unparsable_parameter_is_400_witness :
  let url := mkURL "https://worker.example.com/segment?url=seg001.ts&ref=https%3A%2F%2Fsite.example.com%2F"
               "https://worker.example.com" "worker.example.com" "/segment"
               [("url", "seg001.ts"); ("ref", "https://site.example.com/")] in
  let request := mkRequest "GET" (href url) in
  let answer :=
    new_Response
      (Some (Json.stringify (JObject [ ("error", JString ("Invalid URL: " ++ "seg001.ts")) ])))
      (Some 400%Z) [ ("Content-Type", "application/json") ] in
  (exists line1 line2,
     @M3u8Handler.proxyM3U8 offline request url
     = ([ConsoleError line1; ConsoleError line2], inr answer))
  /\ (exists line1 line2,
        @SegmentHandler.proxySegment offline request url
        = ([ConsoleError line1; ConsoleError line2], inr answer)).
Proof.
  intros url request.
  apply (@unparsable_parameter_is_400 offline request url
           "seg001.ts" "https://site.example.com/" "seg001.ts"
           (mkError "TypeError" "Invalid URL"));
    try reflexivity; try discriminate.
  left. split; vm_compute; reflexivity.
Defined.

(** X16.  Both handlers call [createProxyHeaders(refUrl)] without a
    target.  On a host whose [URL] constructor rejects the text
    [undefined], a request whose [url] and [ref] both parse is therefore
    answered with the error response for that rejection, after the
    handler's own log line and the error's, and no request is sent
    upstream. *)
Theorem valid_request_stops_at_header_builder {host : Host} (request : Request) (url : URL)
    (u r : string) (U R R' : URL) (e : Error) :
  searchParams_get (searchParams url) "url" = Some u -> u <> "" ->
  searchParams_get (searchParams url) "ref" = Some r -> r <> "" ->
  new_URL u None = inr U ->
  new_URL r None = inr R ->
  new_URL (href R) None = inr R' ->
  new_URL "undefined" None = inl e ->
  (exists resp line1 line2,
     M3u8Handler.proxyM3U8 request url = ([ConsoleLog line1; ConsoleLog line2], inr resp)
     /\ status resp = HttpClient.statusCodeOf e)
  /\ (exists resp line1 line2,
        SegmentHandler.proxySegment request url
        = ([ConsoleLog line1; ConsoleLog line2], inr resp)
        /\ status resp = HttpClient.statusCodeOf e).
Proof.
  intros Hu Hnu Hr Hnr HU HR HR' He.
  unfold M3u8Handler.proxyM3U8, SegmentHandler.proxySegment.
  rewrite (validate_both_given _ u r Hu Hnu Hr Hnr).
  cbn [isValid negb params Obj_get toStr]. cbn [String.eqb Ascii.eqb Bool.eqb].
  cbn [toStr]. unfold parseUrl, HttpClient.createProxyHeaders, lift.
  cbn [toStr]. rewrite HU, HR.
  cbn [try_catch bind ret emit app]. rewrite HR', He.
  split; do 3 eexists; split; reflexivity.
Qed.

Lemma valid_request_stops_at_header_builder_witness :
  let url := mkURL "https://worker.example.com/segment?url=https%3A%2F%2Fcdn.example.com%2Fs.ts&ref=https%3A%2F%2Fsite.example.com%2F"
               "https://worker.example.com" "worker.example.com" "/segment"
               [("url", "https://cdn.example.com/s.ts"); ("ref", "https://site.example.com/")] in
  let request := mkRequest "GET" (href url) in
  let host := webHost (answering (mkResponse 200 "OK" [] (Some "#EXTM3U"))) CLOCK in
  (exists resp line1 line2,
     @M3u8Handler.proxyM3U8 host request url = ([ConsoleLog line1; ConsoleLog line2], inr resp)
     /\ status resp = HttpClient.statusCodeOf (mkError "TypeError" "Invalid URL"))
  /\ (exists resp line1 line2,
        @SegmentHandler.proxySegment host request url
        = ([ConsoleLog line1; ConsoleLog line2], inr resp)
        /\ status resp = HttpClient.statusCodeOf (mkError "TypeError" "Invalid URL")).
Proof.
  intros url request host.
  apply (@valid_request_stops_at_header_builder host request url
           "https://cdn.example.com/s.ts" "https://site.example.com/"
           (mkURL "https://cdn.example.com/s.ts" "https://cdn.example.com"
                  "cdn.example.com" "/s.ts" [])
           (mkURL "https://site.example.com/" "https://site.example.com"
                  "site.example.com" "/" [])
           (mkURL "https://site.example.com/" "https://site.example.com"
                  "site.example.com" "/" []));
    try reflexivity; try discriminate; vm_compute; reflexivity.
Defined.

(** *** At most one request *)

Lemma fetches_app (a b : list Event) : fetches (a ++ b) = (fetches a + fetches b)%nat.
Proof. unfold fetches. now rewrite filter_app, length_app. Qed.

Lemma fetches_quiet (t : list Event) : existsb is_fetch t = false -> fetches t = 0%nat.
Proof.
  unfold fetches. induction t as [| ev t IH]; [reflexivity |].
  cbn [existsb filter]. destruct (is_fetch ev); [discriminate |]. exact IH.
Qed.

Lemma trace_bind {A B} (m : M A) (k : A -> M B) :
  trace (bind m k)
  = (trace m ++ match outcome m with
                | inr a => trace (k a)
                | inl _ => []
                end)%list.
Proof.
  destruct m as [t [e | a]]; cbn; [now rewrite app_nil_r |].
  now destruct (k a).
Qed.

Lemma trace_try_catch {A} (m : M A) (h : Error -> M A) :
  trace (try_catch m h)
  = (trace m ++ match outcome m with
                | inl e => trace (h e)
                | inr _ => []
                end)%list.
Proof.
  destruct m as [t [e | a]]; cbn; [| now rewrite app_nil_r].
  now destruct (h e).
Qed.

Lemma fetches_fetchWithConfig {host : Host} (target : string) (o : option Obj)
    (timeout : option Z) :
  fetches (trace (HttpClient.fetchWithConfig target o timeout)) = 1%nat.
Proof.
  unfold HttpClient.fetchWithConfig. cbn [emit bind lift try_catch].
  destruct (fetch target _ _) as [e | resp]; cbn; [reflexivity |].
  destruct ((status resp <? 200)%Z || (status resp >=? 400)%Z); reflexivity.
Qed.

Lemma fetches_error_response {host : Host} (e : Error) (operation : string) :
  fetches (trace (HttpClient.createHttpErrorResponse e operation)) = 0%nat.
Proof. reflexivity. Qed.

Lemma fetches_parseUrl {host : Host} (input : string) :
  fetches (trace (parseUrl input)) = 0%nat.
Proof. unfold parseUrl, lift. now destruct (new_URL input None). Qed.

Lemma fetches_createProxyHeaders {host : Host} (refUrl : string) (t : option string) :
  fetches (trace (HttpClient.createProxyHeaders refUrl t)) = 0%nat.
Proof.
  unfold HttpClient.createProxyHeaders, lift.
  destruct (new_URL refUrl None); [reflexivity |].
  now destruct (new_URL (toStr t) None).
Qed.

Lemma fetches_rewriter {host : Host} (playlistText m3u8Url refUrl : string) :
  fetches (trace (M3u8Handler.processPlaylistContent playlistText m3u8Url refUrl)) = 0%nat.
Proof.
  apply fetches_quiet. apply PlaylistMore.rewriter_sends_nothing.
Qed.

Lemma fetches_bind {A B} (m : M A) (k : A -> M B) (n : nat) :
  (forall a, fetches (trace (k a)) <= n)%nat ->
  (fetches (trace (bind m k)) <= fetches (trace m) + n)%nat.
Proof.
  intros H. rewrite trace_bind, fetches_app.
  destruct (outcome m) as [e | a]; [cbn; lia | specialize (H a); lia].
Qed.

Lemma fetches_try_catch {A} (m : M A) (h : Error -> M A) (n : nat) :
  (forall e, fetches (trace (h e)) <= n)%nat ->
  (fetches (trace (try_catch m h)) <= fetches (trace m) + n)%nat.
Proof.
  intros H. rewrite trace_try_catch, fetches_app.
  destruct (outcome m) as [e | a]; [specialize (H e); lia | cbn; lia].
Qed.

Lemma fetches_parsed_pair {host : Host} (a b : string) (tag : string) :
  fetches
    (trace
       (try_catch
          (x <- parseUrl a ;; y <- parseUrl b ;;
           ret (inr (href x, href y) : Response + string * string))
          (fun error =>
             emit (ConsoleError (tag ++ message error)) ;;;
             ret (inl (createUrlErrorResponse error))))) = 0%nat.
Proof.
  unfold parseUrl, lift.
  destruct (new_URL a None); [reflexivity |].
  destruct (new_URL b None); reflexivity.
Qed.

Lemma proxyM3U8_one_request {host : Host} (request : Request) (url : URL) :
  (fetches (trace (M3u8Handler.proxyM3U8 request url)) <= 1)%nat.
Proof.
  unfold M3u8Handler.proxyM3U8.
  eapply Nat.le_trans;
    [apply (fetches_try_catch _ _ 0);
     intros e; now rewrite fetches_error_response |].
  rewrite Nat.add_0_r.
  destruct (negb (isValid (validateQueryParams (searchParams url) ["url"; "ref"])));
    [cbn; lia |].
  eapply Nat.le_trans; [apply (fetches_bind _ _ 1) |].
  - intros [early | [m3u8Url refUrl]]; [cbn; lia |].
    eapply Nat.le_trans; [apply (fetches_bind _ _ 1) | cbn; lia].
    intros _.
    eapply Nat.le_trans; [apply (fetches_bind _ _ 1) |].
    + intros proxyHeaders.
      eapply Nat.le_trans; [apply (fetches_bind _ _ 0) |].
      * intros response.
        eapply Nat.le_trans; [apply (fetches_bind _ _ 0) |].
        -- intros processed. cbn. lia.
        -- rewrite fetches_rewriter. lia.
      * rewrite fetches_fetchWithConfig. lia.
    + rewrite fetches_createProxyHeaders. lia.
  - rewrite fetches_parsed_pair. lia.
Qed.

Lemma proxySegment_one_request {host : Host} (request : Request) (url : URL) :
  (fetches (trace (SegmentHandler.proxySegment request url)) <= 1)%nat.
Proof.
  unfold SegmentHandler.proxySegment.
  eapply Nat.le_trans;
    [apply (fetches_try_catch _ _ 0);
     intros e; now rewrite fetches_error_response |].
  rewrite Nat.add_0_r.
  destruct (negb (isValid (validateQueryParams (searchParams url) ["url"; "ref"])));
    [cbn; lia |].
  eapply Nat.le_trans; [apply (fetches_bind _ _ 1) |].
  - intros [early | [segmentUrl refUrl]]; [cbn; lia |].
    eapply Nat.le_trans; [apply (fetches_bind _ _ 1) | cbn; lia].
    intros _.
    eapply Nat.le_trans; [apply (fetches_bind _ _ 1) |].
    + intros proxyHeaders.
      eapply Nat.le_trans; [apply (fetches_bind _ _ 0) |].
      * intros response. cbn. lia.
      * rewrite fetches_fetchWithConfig. lia.
    + rewrite fetches_createProxyHeaders. lia.
  - rewrite fetches_parsed_pair. lia.
Qed.

(** X17.  The worker makes at most one outbound request for a request it
    serves, whatever the host answers: there is no retry and no second
    attempt, and rewriting a playlist fetches none of the URIs in it. *)
Theorem at_most_one_request {host : Host} (request : Request) :
  (fetches (trace (Index.fetch request)) <= 1)%nat.
Proof.
  unfold Index.fetch.
  eapply Nat.le_trans; [apply (fetches_bind _ _ 1) |].
  - intros u.
    destruct (String.eqb (req_method request) "OPTIONS"); [cbn; lia |].
    destruct (negb (String.eqb (req_method request) "GET")); [cbn; lia |].
    destruct (String.eqb (pathname u) "/player/stream");
      [apply proxyM3U8_one_request |].
    destruct (String.eqb (pathname u) "/segment");
      [apply proxySegment_one_request |].
    destruct (String.eqb (pathname u) "/" || String.eqb (pathname u) "/health");
      cbn; lia.
  - unfold lift. cbn. lia.
Qed.

(** X18.  [addCorsHeaders] gives each of the four CORS keys its fixed
    value, whatever the object it is given holds under that key, and leaves
    the value under every other key as it was. *)
Theorem cors_headers_win (hdrs : Obj) :
  (forall k v, In (k, v) Cors.CORS_HEADERS ->
               Obj_get (Cors.addCorsHeaders hdrs) k = Some v)
  /\ (forall k, Obj_get Cors.CORS_HEADERS k = None ->
                Obj_get (Cors.addCorsHeaders hdrs) k = Obj_get hdrs k).
Proof.
  unfold Cors.addCorsHeaders. split.
  - intros k v Hin. rewrite Obj_get_spread.
    cbn in Hin. destruct Hin as [H | [H | [H | [H | []]]]];
      injection H as <- <-; reflexivity.
  - intros k Hk. rewrite Obj_get_spread. now rewrite (lastEntry_none _ _ Hk).
Qed.

Lemma cors_headers_win_witness :
  let hdrs := [ ("Content-Type", "video/MP2T"); ("Access-Control-Allow-Origin", "null") ] in
  Obj_get (Cors.addCorsHeaders hdrs) "Access-Control-Allow-Origin" = Some "*"
  /\ Obj_get (Cors.addCorsHeaders hdrs) "Content-Type" = Obj_get hdrs "Content-Type".
Proof.
  intros hdrs. destruct (cors_headers_win hdrs) as [Hc Ho]. split.
  - apply Hc. now left.
  - apply Ho. reflexivity.
Defined.

End HandlersMore.

(** ** The references the rewriter emits, read back by the worker *)

Module RoundTrip.
Import M3u8Handler WebURL.

Lemma safe_app (a b : string) : safe (a ++ b) = safe a && safe b.
Proof.
  unfold safe. induction a as [| c a IH]; [reflexivity |].
  cbn. rewrite IH. now rewrite andb_assoc.
Qed.

Lemma encode_app (set : ascii -> bool) (a b : string) :
  encode set (a ++ b) = encode set a ++ encode set b.
Proof.
  induction a as [| c a IH]; [reflexivity |].
  cbn [append encode]. rewrite IH.
  now rewrite ClientMore.string_app_assoc.
Qed.

(** What [encodeURIComponent] writes for a character is safe, before and
    after the query state. *)
Lemma safe_encoded_char (c : ascii) :
  let piece := if JS.uriUnreserved c then String c "" else JS.pctUtf8 c in
  safe piece = true /\ safe (encode specialQuerySet piece) = true.
Proof. destruct c as [[] [] [] [] [] [] [] []]; vm_compute; split; reflexivity. Qed.

Lemma safe_encodeURIComponent (s : string) : safe (JS.encodeURIComponent s) = true.
Proof.
  induction s as [| c s IH]; [reflexivity |].
  cbn [JS.encodeURIComponent]. rewrite safe_app, IH, andb_true_r.
  apply safe_encoded_char.
Qed.

Lemma safe_inQuery (s : string) : safe (inQuery s) = true.
Proof.
  unfold inQuery. induction s as [| c s IH]; [reflexivity |].
  cbn [JS.encodeURIComponent]. rewrite encode_app, safe_app, IH, andb_true_r.
  apply safe_encoded_char.
Qed.

Lemma pctDecode_plain (c : ascii) (s : string) :
  isCode c 37 = false -> isCode c 43 = false ->
  pctDecode (String c s) = String c (pctDecode s).
Proof. intros H37 H43. cbn [pctDecode]. now rewrite H37, H43. Qed.

Lemma pctDecode_escape (h l : ascii) (a b : N) (s : string) :
  hexValue h = Some a -> hexValue l = Some b ->
  pctDecode (String "%" (String h (String l s)))
  = String (ascii_of_N (16 * a + b)) (pctDecode s).
Proof.
  intros Hh Hl. cbn [pctDecode].
  change (isCode "%" 37) with true. cbv iota. now rewrite Hh, Hl.
Qed.

Lemma encoded_char_decodes (c : ascii) :
  (JS.code c <? 128)%N = true ->
  decodesTo c
    (encode specialQuerySet (if JS.uriUnreserved c then String c "" else JS.pctUtf8 c))
  = true.
Proof.
  destruct c as [[] [] [] [] [] [] [] []]; vm_compute; intros H;
    solve [reflexivity | discriminate H].
Qed.

Lemma decodesTo_decode (c : ascii) (e rest : string) :
  decodesTo c e = true -> pctDecode (e ++ rest) = String c (pctDecode rest).
Proof.
  unfold decodesTo. destruct e as [| d [| h [| l [| x e']]]]; try discriminate.
  - intros H. apply andb_prop in H as [H H43]. apply andb_prop in H as [Hd H37].
    apply Ascii.eqb_eq in Hd. subst d. apply negb_true_iff in H37, H43.
    cbn [append]. now apply pctDecode_plain.
  - intros H. apply andb_prop in H as [Hp H].
    destruct (hexValue h) as [a |] eqn:Hh; [| discriminate H].
    destruct (hexValue l) as [b |] eqn:Hl; [| discriminate H].
    apply Ascii.eqb_eq in H. unfold isCode in Hp. apply N.eqb_eq in Hp.
    assert (Ed : d = "%"%char).
    { rewrite <- (ascii_N_embedding d). unfold JS.code in Hp. now rewrite Hp. }
    subst d. cbn [append]. rewrite (pctDecode_escape h l a b rest Hh Hl).
    now rewrite H.
Qed.

(** Decoding gives an ASCII character back, whatever follows it. *)
Lemma decode_encoded_char (c : ascii) (rest : string) :
  (JS.code c <? 128)%N = true ->
  pctDecode
    (encode specialQuerySet (if JS.uriUnreserved c then String c "" else JS.pctUtf8 c)
     ++ rest)
  = String c (pctDecode rest).
Proof. intros H. apply decodesTo_decode. now apply encoded_char_decodes. Qed.

Lemma decode_inQuery (s rest : string) :
  ascii7 s = true -> pctDecode (inQuery s ++ rest) = s ++ pctDecode rest.
Proof.
  unfold inQuery, ascii7. induction s as [| c s IH]; intros H; [reflexivity |].
  cbn in H. apply andb_prop in H as [Hc Hs].
  cbn [JS.encodeURIComponent]. rewrite encode_app, ClientMore.string_app_assoc.
  rewrite decode_encoded_char by assumption.
  cbn [append]. now rewrite IH.
Qed.

Lemma safeChar_inv (c : ascii) :
  safeChar c = true ->
  c0OrSpace c = false /\ (isCode c 9 || isCode c 10 || isCode c 13) = false
  /\ isCode c 38 = false /\ isCode c 35 = false.
Proof.
  unfold safeChar, c0OrSpace, isCode. intros H.
  apply andb_prop in H as [H H35]. apply andb_prop in H as [H32 H38].
  apply negb_true_iff in H35, H38. apply N.ltb_lt in H32.
  repeat split; try assumption.
  - apply N.leb_gt. assumption.
  - assert (E9 : (JS.code c =? 9)%N = false) by (apply N.eqb_neq; lia).
    assert (E10 : (JS.code c =? 10)%N = false) by (apply N.eqb_neq; lia).
    assert (E13 : (JS.code c =? 13)%N = false) by (apply N.eqb_neq; lia).
    now rewrite E9, E10, E13.
Qed.

Lemma forallb_str_app (p : ascii -> bool) (a b : string) :
  forallb_str p (a ++ b) = forallb_str p a && forallb_str p b.
Proof.
  induction a as [| c a IH]; [reflexivity |].
  cbn. rewrite IH. now rewrite andb_assoc.
Qed.

Lemma forallb_str_impl (p q : ascii -> bool) (s : string) :
  (forall c, p c = true -> q c = true) ->
  forallb_str p s = true -> forallb_str q s = true.
Proof.
  intros Hpq. induction s as [| c s IH]; [reflexivity |].
  cbn. intros H. apply andb_prop in H as [Hc Hs]. now rewrite (Hpq c Hc), (IH Hs).
Qed.

Lemma stripStart_visible (s : string) :
  forallb_str (fun c => negb (c0OrSpace c)) s = true -> stripStart s = s.
Proof.
  destruct s as [| c s]; [reflexivity |].
  cbn. intros H. apply andb_prop in H as [Hc _].
  apply negb_true_iff in Hc. now rewrite Hc.
Qed.

Lemma stripEnd_visible (s : string) :
  forallb_str (fun c => negb (c0OrSpace c)) s = true -> stripEnd s = s.
Proof.
  induction s as [| c s IH]; [reflexivity |].
  cbn [forallb_str]. intros H. apply andb_prop in H as [Hc Hs].
  apply negb_true_iff in Hc. cbn [stripEnd].
  rewrite (IH Hs). destruct s; [now rewrite Hc | reflexivity].
Qed.

Lemma visible_not_tab (c : ascii) :
  c0OrSpace c = false -> (isCode c 9 || isCode c 10 || isCode c 13) = false.
Proof.
  unfold c0OrSpace, isCode. intros H. apply N.leb_gt in H.
  assert (E9 : (JS.code c =? 9)%N = false) by (apply N.eqb_neq; lia).
  assert (E10 : (JS.code c =? 10)%N = false) by (apply N.eqb_neq; lia).
  assert (E13 : (JS.code c =? 13)%N = false) by (apply N.eqb_neq; lia).
  now rewrite E9, E10, E13.
Qed.

Lemma removeTabNl_visible (s : string) :
  forallb_str (fun c => negb (c0OrSpace c)) s = true -> removeTabNl s = s.
Proof.
  induction s as [| c s IH]; [reflexivity |].
  cbn [forallb_str]. intros H. apply andb_prop in H as [Hc Hs].
  apply negb_true_iff in Hc. cbn [removeTabNl].
  now rewrite (visible_not_tab c Hc), (IH Hs).
Qed.

(** Where no character stops it, [takeUntil] takes the whole text. *)
Lemma takeUntil_none (stop : ascii -> bool) (s : string) :
  forallb_str (fun c => negb (stop c)) s = true -> takeUntil stop s = (s, "").
Proof.
  induction s as [| c s IH]; [reflexivity |].
  cbn [forallb_str]. intros H. apply andb_prop in H as [Hc Hs].
  apply negb_true_iff in Hc. cbn [takeUntil]. now rewrite Hc, (IH Hs).
Qed.

Lemma splitOn_none (s : string) :
  forallb_str (fun c => negb (isCode c 38)) s = true -> splitOn 38 s = [s].
Proof.
  induction s as [| c s IH]; [reflexivity |].
  cbn [forallb_str]. intros H. apply andb_prop in H as [Hc Hs].
  apply negb_true_iff in Hc. cbn [splitOn]. now rewrite Hc, (IH Hs).
Qed.

Lemma splitOn_amp (a b : string) :
  forallb_str (fun c => negb (isCode c 38)) a = true ->
  splitOn 38 (a ++ String "&" b) = a :: splitOn 38 b.
Proof.
  induction a as [| c a IH]; [reflexivity |].
  cbn [forallb_str]. intros H. apply andb_prop in H as [Hc Hs].
  apply negb_true_iff in Hc. cbn [append splitOn]. now rewrite Hc, (IH Hs).
Qed.

Lemma safe_visible (s : string) :
  safe s = true -> forallb_str (fun c => negb (c0OrSpace c)) s = true.
Proof.
  apply forallb_str_impl. intros c H.
  destruct (safeChar_inv c H) as (H0 & _). now rewrite H0.
Qed.

Lemma safe_no_hash (s : string) :
  safe s = true -> forallb_str (fun c => negb (isCode c 35)) s = true.
Proof.
  apply forallb_str_impl. intros c H.
  destruct (safeChar_inv c H) as (_ & _ & _ & H35). now rewrite H35.
Qed.

Lemma safe_no_amp (s : string) :
  safe s = true -> forallb_str (fun c => negb (isCode c 38)) s = true.
Proof.
  apply forallb_str_impl. intros c H.
  destruct (safeChar_inv c H) as (_ & _ & H38 & _). now rewrite H38.
Qed.

Lemma string_app_nil_r (s : string) : s ++ "" = s.
Proof. induction s as [| c s IH]; [reflexivity | cbn; now rewrite IH]. Qed.

(** The query [url=...&ref=...] of a reference, as [searchParams] reads
    it. *)
Lemma formParse_reference (abs refUrl : string) :
  ascii7 abs = true -> ascii7 refUrl = true ->
  formParse
    (encode specialQuerySet
       ("url=" ++ JS.encodeURIComponent abs ++ "&ref=" ++ JS.encodeURIComponent refUrl))
  = [("url", abs); ("ref", refUrl)].
Proof.
  intros Ha Hr.
  rewrite !encode_app. fold (inQuery abs). fold (inQuery refUrl).
  change (encode specialQuerySet "url=") with "url=".
  change (encode specialQuerySet "&ref=") with "&ref=".
  unfold formParse.
  replace ("url=" ++ inQuery abs ++ "&ref=" ++ inQuery refUrl)
    with (("url=" ++ inQuery abs) ++ String "&" ("ref=" ++ inQuery refUrl))
    by (now rewrite ClientMore.string_app_assoc).
  rewrite splitOn_amp, splitOn_none.
  - cbn [filter append String.eqb negb map].
    unfold formPair. cbn [takeUntil].
    change (isCode "u" 61) with false. change (isCode "r" 61) with false.
    change (isCode "l" 61) with false. change (isCode "e" 61) with false.
    change (isCode "f" 61) with false. change (isCode "=" 61) with true.
    cbv iota. cbn [takeUntil].
    change (isCode "r" 61) with false. change (isCode "l" 61) with false.
    change (isCode "e" 61) with false. change (isCode "f" 61) with false.
    change (isCode "=" 61) with true. cbv iota.
    change (pctDecode "url") with "url". change (pctDecode "ref") with "ref".
    rewrite <- (string_app_nil_r (inQuery abs)), <- (string_app_nil_r (inQuery refUrl)).
    rewrite !decode_inQuery by assumption.
    cbn [pctDecode]. now rewrite !string_app_nil_r.
  - rewrite forallb_str_app. now rewrite (safe_no_amp _ (safe_inQuery refUrl)).
  - rewrite forallb_str_app. now rewrite (safe_no_amp _ (safe_inQuery abs)).
Qed.

Lemma visible_reference (head abs refUrl : string) :
  forallb_str (fun c => negb (c0OrSpace c)) head = true ->
  forallb_str (fun c => negb (c0OrSpace c))
    (head ++ JS.encodeURIComponent abs ++ "&ref=" ++ JS.encodeURIComponent refUrl) = true.
Proof.
  intros Hh. rewrite !forallb_str_app, Hh.
  now rewrite !(safe_visible _ (safe_encodeURIComponent _)).
Qed.

Lemma no_hash_reference (abs refUrl : string) :
  forallb_str (fun c => negb (isCode c 35))
    ("url=" ++ JS.encodeURIComponent abs ++ "&ref=" ++ JS.encodeURIComponent refUrl) = true.
Proof.
  rewrite !forallb_str_app.
  now rewrite !(safe_no_hash _ (safe_encodeURIComponent _)).
Qed.

Lemma pathState_segment (q : string) :
  pathState ("segment?" ++ q) "" [] = (["segment"], "?" ++ q).
Proof. vm_compute. reflexivity. Qed.

Lemma pathState_player_stream (q : string) :
  pathState ("player/stream?" ++ q) "" [] = (["player"; "stream"], "?" ++ q).
Proof. vm_compute. reflexivity. Qed.

(** A reference that opens with one slash, parsed against the worker's
    own URL: the path is the reference's, the query is its query passed
    through the query state. *)
Lemma parse_reference (b : Parsed) (c : ascii) (tail : string) (segs : list string)
    (abs refUrl : string) :
  let q := "url=" ++ JS.encodeURIComponent abs ++ "&ref=" ++ JS.encodeURIComponent refUrl in
  isSlash c = false ->
  forallb_str (fun d => negb (c0OrSpace d)) (String "/" (String c tail) ++ "?url=") = true ->
  pathState (String c tail ++ "?" ++ q) "" [] = (segs, "?" ++ q) ->
  parse (String "/" (String c tail) ++ "?" ++ q) (Some b)
  = Some (mkParsed (scheme b) (host b) (port b) segs (Some (encode specialQuerySet q)) None).
Proof.
  intros q Hc Hvis Hpath.
  assert (Hv : forallb_str (fun d => negb (c0OrSpace d))
                 (String "/" (String c tail) ++ "?" ++ q) = true).
  { subst q.
    replace (String "/" (String c tail) ++ "?" ++ "url=" ++ JS.encodeURIComponent abs
             ++ "&ref=" ++ JS.encodeURIComponent refUrl)
      with ((String "/" (String c tail) ++ "?url=") ++ JS.encodeURIComponent abs
            ++ "&ref=" ++ JS.encodeURIComponent refUrl)
      by (now rewrite !ClientMore.string_app_assoc).
    now apply visible_reference. }
  unfold parse.
  rewrite (stripStart_visible _ Hv), (stripEnd_visible _ Hv), (removeTabNl_visible _ Hv).
  change (String "/" (String c tail) ++ "?" ++ q)
    with (String "/" (String c (tail ++ "?" ++ q))).
  change (splitScheme (String "/" (String c (tail ++ "?" ++ q)))) with (@None (string * string)).
  cbv iota. cbn [relativeOn]. change (isSlash "/") with true. cbv iota. rewrite Hc.
  change (String c (tail ++ "?" ++ q)) with (String c tail ++ "?" ++ q).
  rewrite Hpath.
  change ("?" ++ q) with (String "?" q). cbn [queryAndFragment].
  change (isCode "?" 63) with true. cbv iota.
  subst q. now rewrite (takeUntil_none _ _ (no_hash_reference abs refUrl)).
Qed.

Lemma toURL_reference (b : Parsed) (segs : list string) (abs refUrl : string) :
  ascii7 abs = true -> ascii7 refUrl = true ->
  let q := "url=" ++ JS.encodeURIComponent abs ++ "&ref=" ++ JS.encodeURIComponent refUrl in
  let u := mkParsed (scheme b) (host b) (port b) segs (Some (encode specialQuerySet q)) None in
  toURL u
  = Some (mkURL (serialize u) (serializeOrigin u) (host b) (serializePath u)
            [("url", abs); ("ref", refUrl)]).
Proof.
  intros Ha Hr q u. unfold toURL. subst u q. cbn [query].
  rewrite (formParse_reference abs refUrl Ha Hr).
  cbn [forallb fst snd]. rewrite Ha, Hr.
  change (ascii7 "url") with true. change (ascii7 "ref") with true.
  reflexivity.
Qed.

(** X19.  A reference the rewriter emits comes back to the worker intact.
    On the reference host, for an ASCII absolute URL and referer, the
    [/segment] reference resolved against the worker's own URL has the path
    [/segment] and the [/player/stream] reference the path
    [/player/stream], and in both the query parameters [url] and [ref]
    decode to the absolute URL and the referer that were encoded. *)
Theorem references_read_back (worker abs refUrl : string) (b : Parsed) :
  parse worker None = Some b ->
  ascii7 abs = true -> ascii7 refUrl = true ->
  (exists u, construct (segmentRef abs refUrl) (Some worker) = inr u
             /\ pathname u = "/segment"
             /\ searchParams_get (searchParams u) "url" = Some abs
             /\ searchParams_get (searchParams u) "ref" = Some refUrl)
  /\ (exists u, construct (streamRef abs refUrl) (Some worker) = inr u
                /\ pathname u = "/player/stream"
                /\ searchParams_get (searchParams u) "url" = Some abs
                /\ searchParams_get (searchParams u) "ref" = Some refUrl).
Proof.
  intros Hb Ha Hr. unfold construct. rewrite Hb. split.
  - unfold segmentRef.
    change ("/segment?url=" ++ JS.encodeURIComponent abs ++ "&ref="
            ++ JS.encodeURIComponent refUrl)
      with (String "/" (String "s" "egment") ++ "?"
            ++ "url=" ++ JS.encodeURIComponent abs ++ "&ref="
            ++ JS.encodeURIComponent refUrl).
    rewrite (parse_reference b "s" "egment" ["segment"] abs refUrl);
      [| reflexivity | reflexivity | apply pathState_segment].
    rewrite (toURL_reference b ["segment"] abs refUrl Ha Hr).
    eexists. split; [reflexivity |]. repeat split.
  - unfold streamRef.
    change ("/player/stream?url=" ++ JS.encodeURIComponent abs ++ "&ref="
            ++ JS.encodeURIComponent refUrl)
      with (String "/" (String "p" "layer/stream") ++ "?"
            ++ "url=" ++ JS.encodeURIComponent abs ++ "&ref="
            ++ JS.encodeURIComponent refUrl).
    rewrite (parse_reference b "p" "layer/stream" ["player"; "stream"] abs refUrl);
      [| reflexivity | reflexivity | apply pathState_player_stream].
    rewrite (toURL_reference b ["player"; "stream"] abs refUrl Ha Hr).
    eexists. split; [reflexivity |]. repeat split.
Qed.

Lemma references_read_back_witness :
  let abs := "https://cdn.example.com/live/a b/seg 1.ts?t=1&k='x'#f" in
  (exists u, construct (segmentRef abs REFERER) (Some "https://worker.example.com/player/stream?url=x&ref=y")
             = inr u
             /\ pathname u = "/segment"
             /\ searchParams_get (searchParams u) "url" = Some abs
             /\ searchParams_get (searchParams u) "ref" = Some REFERER)
  /\ (exists u, construct (streamRef abs REFERER) (Some "https://worker.example.com/player/stream?url=x&ref=y")
                = inr u
                /\ pathname u = "/player/stream"
                /\ searchParams_get (searchParams u) "url" = Some abs
                /\ searchParams_get (searchParams u) "ref" = Some REFERER).
Proof.
  intros abs.
  apply (references_read_back "https://worker.example.com/player/stream?url=x&ref=y"
           abs REFERER
           (mkParsed "https" "worker.example.com" None ["player"; "stream"]
              (Some "url=x&ref=y") None));
    vm_compute; reflexivity.
Defined.

End RoundTrip.

(** ** Failures *)

Module Failures.
Import M3u8Handler Scan ScanFacts HttpClient.

(** X20.  One URI line that does not resolve fails the whole rewrite.
    When the lines before it are rewritten without error and the scan
    reads the line as its current line, [processPlaylistContent] throws the
    error of that resolution: no part of the playlist is returned. *)
Theorem unresolvable_uri_fails_rewrite {host : Host}
    (playlistText m3u8Url refUrl base : string) (pre : list string) (l : string)
    (rest before : list string) (e : Error) :
  JS.splitLines playlistText = (pre ++ l :: rest)%list ->
  awaitsURI pre = false ->
  isBareURI l = true ->
  resolve "." m3u8Url = ret base ->
  outcome (rewriteLines base refUrl pre) = inr before ->
  resolve (JS.trim l) base = throw e ->
  outcome (processPlaylistContent playlistText m3u8Url refUrl) = inl e.
Proof.
  intros Hs Hw Hb Hbase Hpre He.
  rewrite processPlaylistContent_scan, Hs, Hbase, bind_ret_l.
  rewrite scan_app by assumption.
  rewrite rewriteLines_scan in Hpre.
  destruct (scan base refUrl pre []) as [t [e0 | out]]; [discriminate Hpre |].
  cbn [outcome snd] in Hpre. injection Hpre as ->.
  cbn [scan]. pose proof (Playlist.bare_not_tag l Hb) as Ht.
  unfold isTag in Ht. unfold isBareURI in Hb. rewrite Ht, Hb, He.
  reflexivity.
Qed.

Lemma unresolvable_uri_fails_rewrite_witness :
  outcome (@processPlaylistContent offline
             ("#EXTM3U" ++ NL ++ "seg001.ts" ++ NL ++ "http://" ++ NL ++ "seg003.ts")
             PLAYLIST_URL REFERER)
  = inl (mkError "TypeError" "Invalid URL").
Proof.
  apply (@unresolvable_uri_fails_rewrite offline _ PLAYLIST_URL REFERER
           "https://cdn.example.com/live/" ["#EXTM3U"; "seg001.ts"] "http://" ["seg003.ts"]
           [ "#EXTM3U";
             "/segment?url=https%3A%2F%2Fcdn.example.com%2Flive%2Fseg001.ts&ref=https%3A%2F%2Fsite.example.com%2F" ]);
    vm_compute; reflexivity.
Defined.

(** X21.  Every error response of the client has one of the six statuses
    403, 404, 408, 429, 500 and 502, repeats that status in the [status]
    field of its JSON body beside the error's message, and carries the
    content type [application/json] and [Access-Control-Allow-Origin: *];
    building it logs one line and cannot fail. *)
Theorem error_response_shape {host : Host} (error : Error) (operation : string) :
  exists resp line,
    createHttpErrorResponse error operation = ([ConsoleLog line], inr resp)
    /\ In (status resp) [403; 404; 408; 429; 500; 502]%Z
    /\ body resp =
       Some (Json.stringify
               (JObject [ ("error", JString ("Failed to " ++ operation));
                          ("message", JString (message error));
                          ("status", JNumber (status resp));
                          ("timestamp", JString Date_toISOString) ]))
    /\ Headers_get (headers resp) "Content-Type" = Some "application/json"
    /\ Headers_get (headers resp) "Access-Control-Allow-Origin" = Some "*".
Proof.
  do 2 eexists. split; [reflexivity |].
  split; [| repeat split].
  cbn [status new_Response]. unfold statusCodeOf.
  destruct (String.eqb (name error) "AbortError"); [cbn; tauto |].
  destruct (JS.includes (message error) "HTTP 403"); [cbn; tauto |].
  destruct (JS.includes (message error) "HTTP 404"); [cbn; tauto |].
  destruct (JS.includes (message error) "HTTP 429"); [cbn; tauto |].
  destruct (JS.includes (message error) "HTTP 502" || JS.includes (message error) "HTTP 503");
    cbn; tauto.
Qed.

End Failures.
